(** * Struktur: the tree engine and the archive walk

    A shallow embedding of the tree-mutation code of [App.tsx]
    ([modifyTree], [updateTree] and the four handlers built on it,
    [setAllExpanded]), of the inline editor's [handleConfirm]
    ([components/DirectoryNode.tsx]) and of the archive walk of
    [services/zipService.ts] ([addNodeToZip], [createZipFromStructure]);
    and, around them, of the dialogs of [App.tsx] (new project, delete,
    Load Project), of the rows [DirectoryNode] renders and of the Delete
    item of [components/ContextMenu.tsx].

    Conventions of the embedding.

    - A JavaScript string is a [string]; a character stands for a code
      unit below 256.
    - A [FileSystemNode] object is an immutable value carrying the address
      [ref] at which it was allocated.  The program never writes to an
      object after it has been published in the tree, so a tree of tagged
      values represents the heap faithfully; [a !== b] on objects compares
      the two addresses.
    - An object literal ([{ ...node, children: newChildren }]) allocates:
      allocation is a state monad over the next free address. *)

From Stdlib Require Import List String Ascii Arith Bool Lia.
Import ListNotations.
Open Scope string_scope.
Open Scope list_scope.

(** ** Objects and the allocation monad *)

Definition loc := nat.

Definition M (A : Type) : Type := loc -> A * loc.

Definition ret {A : Type} (a : A) : M A := fun s => (a, s).

Definition bind {A B : Type} (m : M A) (k : A -> M B) : M B :=
  fun s => let (a, s') := m s in k a s'.

Notation "x <- m ;; k" := (bind m (fun x => k))
  (at level 61, m at next level, right associativity).

(** [alloc] hands out the next free address. *)
Definition alloc : M loc := fun s => (s, S s).

Definition mapM {A B : Type} (f : A -> M B) : list A -> M (list B) :=
  fix go (l : list A) : M (list B) :=
    match l with
    | [] => ret []
    | x :: l' => y <- f x ;; ys <- go l' ;; ret (y :: ys)
    end.

(** ** types.ts *)

Inductive NodeType : Type := folder | file.

Definition NodeType_eqb (a b : NodeType) : bool :=
  match a, b with
  | folder, folder | file, file => true
  | _, _ => false
  end.

(** [children?] and [isExpanded?] are optional fields: [None] is
    [undefined]. *)
#[warnings="-register-all"]
Inductive FileSystemNode : Type :=
  mkNode {
    ref : loc;
    id : string;
    name : string;
    type : NodeType;
    children : option (list FileSystemNode);
    isExpanded : option bool
  }.

(** Truthiness of an optional boolean: [undefined] is falsy. *)
Definition truthy (b : option bool) : bool :=
  match b with Some true => true | _ => false end.

(** [node.children || []] *)
Definition children_or_empty (n : FileSystemNode) : list FileSystemNode :=
  match children n with Some cs => cs | None => [] end.

(** [a === b] on an object and a possibly [undefined] array slot. *)
Definition same_object (a : FileSystemNode) (b : option FileSystemNode) : bool :=
  match b with
  | Some b' => Nat.eqb (ref a) (ref b')
  | None => false
  end.

(** [Array.prototype.some] with the (element, index) callback. *)
Fixpoint some_from {A : Type} (p : A -> nat -> bool) (l : list A) (i : nat) : bool :=
  match l with
  | [] => false
  | x :: l' => p x i || some_from p l' (S i)
  end.

Definition some {A : Type} (p : A -> nat -> bool) (l : list A) : bool :=
  some_from p l 0.

(** [.filter(child => child !== null)] *)
Fixpoint filter_non_null {A : Type} (l : list (option A)) : list A :=
  match l with
  | [] => []
  | Some x :: l' => x :: filter_non_null l'
  | None :: l' => filter_non_null l'
  end.

(** ** App.tsx: the tree engine *)

Definition Logic : Type := FileSystemNode -> M (option FileSystemNode).

(** [{ ...node, children: newChildren }] *)
Definition with_children (n : FileSystemNode) (cs : list FileSystemNode) : M FileSystemNode :=
  r <- alloc ;; ret (mkNode r (id n) (name n) (type n) (Some cs) (isExpanded n)).

Definition childrenChanged (newChildren old : list FileSystemNode) : bool :=
  negb (Nat.eqb (List.length newChildren) (List.length old))
  || some (fun child index => negb (same_object child (nth_error old index))) newChildren.

Fixpoint modifyTree (node : FileSystemNode) (logic : Logic) : M (option FileSystemNode) :=
  match node with
  | mkNode r i nm t ch e =>
      match ch with
      | Some cs =>
          mapped <- mapM (fun child => modifyTree child logic) cs ;;
          let newChildren := filter_non_null mapped in
          if childrenChanged newChildren cs
          then nodeToProcess <- with_children (mkNode r i nm t ch e) newChildren ;;
               logic nodeToProcess
          else logic (mkNode r i nm t ch e)
      | None => logic (mkNode r i nm t ch e)
      end
  end.

(** [setTree(currentTree => ...)]: the tree state is [FileSystemNode | null]. *)
Definition updateTree (logic : Logic) (tree : option FileSystemNode) : M (option FileSystemNode) :=
  match tree with
  | None => ret None
  | Some currentTree => modifyTree currentTree logic
  end.

(** The four closures named [logic] in the handlers, lifted to the top
    level with the variables they capture as arguments. *)
Definition add_logic (parentId : string) (newNodeData : FileSystemNode) : Logic :=
  fun node =>
    if String.eqb (id node) parentId && NodeType_eqb (type node) folder
    then r' <- alloc ;;
         ret (Some (mkNode r' (id node) (name node) (type node)
                           (Some (children_or_empty node ++ [newNodeData]))
                           (Some true)))
    else ret (Some node).

Definition delete_logic (nodeId : string) : Logic :=
  fun node => ret (if String.eqb (id node) nodeId then None else Some node).

Definition rename_logic (nodeId newName : string) : Logic :=
  fun node =>
    if String.eqb (id node) nodeId
    then r' <- alloc ;;
         ret (Some (mkNode r' (id node) newName (type node) (children node)
                           (isExpanded node)))
    else ret (Some node).

Definition toggle_logic (nodeId : string) : Logic :=
  fun node =>
    if String.eqb (id node) nodeId && NodeType_eqb (type node) folder
    then r' <- alloc ;;
         ret (Some (mkNode r' (id node) (name node) (type node) (children node)
                           (Some (negb (truthy (isExpanded node))))))
    else ret (Some node).

(** [Date.now()] and [Math.random()] are inputs of the model, given by
    their decimal renderings [now] and [rnd]. *)
Definition new_node_id (now rnd parentId : string) : string :=
  (parentId ++ "-" ++ now ++ "-" ++ rnd)%string.

Definition new_node_data (r : loc) (now rnd parentId nm : string) (ty : NodeType)
    : FileSystemNode :=
  mkNode r (new_node_id now rnd parentId) nm ty
         (match ty with folder => Some [] | file => None end)
         (match ty with folder => Some true | file => None end).

Definition handleAddNode (now rnd : string) (parentId nm : string) (ty : NodeType)
    (tree : option FileSystemNode) : M (option FileSystemNode) :=
  r <- alloc ;;
  updateTree (add_logic parentId (new_node_data r now rnd parentId nm ty)) tree.

Definition handleDeleteNode (nodeId : string) (tree : option FileSystemNode)
    : M (option FileSystemNode) :=
  if String.eqb nodeId "root" then ret tree
  else updateTree (delete_logic nodeId) tree.

Definition handleRenameNode (nodeId newName : string) (tree : option FileSystemNode)
    : M (option FileSystemNode) :=
  updateTree (rename_logic nodeId newName) tree.

Definition handleToggleExpand (nodeId : string) (tree : option FileSystemNode)
    : M (option FileSystemNode) :=
  updateTree (toggle_logic nodeId) tree.

(** [recursiveSet]: every visited node is copied; only a folder gets the
    flag and has its children visited. *)
Fixpoint recursiveSet (isExp : bool) (node : FileSystemNode) : M FileSystemNode :=
  match node with
  | mkNode r i nm t ch e =>
      r' <- alloc ;;
      match t with
      | folder =>
          match ch with
          | Some cs =>
              cs' <- mapM (recursiveSet isExp) cs ;;
              ret (mkNode r' i nm t (Some cs') (Some isExp))
          | None => ret (mkNode r' i nm t None (Some isExp))
          end
      | file => ret (mkNode r' i nm t ch e)
      end
  end.

Definition setAllExpanded (isExp : bool) (tree : option FileSystemNode)
    : M (option FileSystemNode) :=
  match tree with
  | None => ret None
  | Some t => t' <- recursiveSet isExp t ;; ret (Some t')
  end.

(** ** components/DirectoryNode.tsx: the inline editor *)

(** White space removed by [String.prototype.trim], among the code units
    below 256: TAB, LF, VT, FF, CR, SPACE and NBSP. *)
Definition is_white_space (c : ascii) : bool :=
  let n := nat_of_ascii c in
  Nat.eqb n 9 || Nat.eqb n 10 || Nat.eqb n 11 || Nat.eqb n 12
  || Nat.eqb n 13 || Nat.eqb n 32 || Nat.eqb n 160.

Fixpoint trim_start (s : string) : string :=
  match s with
  | EmptyString => EmptyString
  | String c s' => if is_white_space c then trim_start s' else s
  end.

Fixpoint trim_end (s : string) : string :=
  match s with
  | EmptyString => EmptyString
  | String c s' =>
      match trim_end s' with
      | EmptyString => if is_white_space c then EmptyString else String c EmptyString
      | t => String c t
      end
  end.

Definition trim (s : string) : string := trim_end (trim_start s).

(** The component's local state ([useState]). *)
Record EditorState : Type := mkEditor {
  isAdding : option NodeType;
  isRenaming : bool;
  inputValue : string
}.

(** The callback props the editor may invoke. *)
Inductive Callback : Type :=
| onAddNode (parentId nm : string) (ty : NodeType)
| onRenameNode (nodeId newName : string).

Definition editor_closed : EditorState := mkEditor None false EmptyString.

(** [handleConfirm]: the call it issues, if any, and the state it leaves. *)
Definition handleConfirm (node : FileSystemNode) (st : EditorState)
    : option Callback * EditorState :=
  if String.eqb (trim (inputValue st)) EmptyString
  then (None, editor_closed)
  else
    (match isAdding st with
     | Some ty => Some (onAddNode (id node) (inputValue st) ty)
     | None =>
         if isRenaming st then Some (onRenameNode (id node) (inputValue st))
         else None
     end,
     editor_closed).

(** [App] passes [handleAddNode] and [handleRenameNode] as these props. *)
Definition run_callback (now rnd : string) (cb : option Callback)
    (tree : option FileSystemNode) : M (option FileSystemNode) :=
  match cb with
  | None => ret tree
  | Some (onAddNode parentId nm ty) => handleAddNode now rnd parentId nm ty tree
  | Some (onRenameNode nodeId newName) => handleRenameNode nodeId newName tree
  end.

(** Confirming the editor of [node] while the application holds [tree]. *)
Definition confirm_edit (now rnd : string) (node : FileSystemNode) (st : EditorState)
    (tree : option FileSystemNode) : M (option FileSystemNode) :=
  run_callback now rnd (fst (handleConfirm node st)) tree.

(** ** services/zipService.ts *)

(** [declare const JSZip: any]: the archive writer is an interface of the
    model.  A folder handle [Handle] designates a directory of the archive
    [Zip] under construction; [generateAsync] yields the blob or fails.
    The calls [new JSZip()], [folder] and [file] return: a writer that
    throws from one of them, before [generateAsync] is reached, is not
    in this interface. *)
Class JSZip (Zip Handle Blob Error : Type) : Type := {
  new_JSZip : Zip;
  zip_root : Handle;
  zip_folder : Handle -> string -> Zip -> Handle * Zip;
  zip_file : Handle -> string -> string -> Zip -> Zip;
  generateAsync : Zip -> Error + Blob
}.

(** What the export does to the page. *)
Inductive Effect (Blob Error : Type) : Type :=
| alert (msg : string)
| console_error (msg : option string) (err : option Error)
| download (filename : string) (content : Blob).

Arguments alert {Blob Error} msg.
Arguments console_error {Blob Error} msg err.
Arguments download {Blob Error} filename content.

(** How an [async] call settles. *)
Inductive Settled (Error : Type) : Type :=
| resolved
| rejected (err : Error).

Arguments resolved {Error}.
Arguments rejected {Error} err.

Section ZipService.
Context {Zip Handle Blob Error : Type} {W : JSZip Zip Handle Blob Error}.

Fixpoint addNodeToZip (node : FileSystemNode) (zipFolder : Handle) (zip : Zip) : Zip :=
  match node with
  | mkNode _ _ nm t ch _ =>
      match t with
      | folder =>
          let (newFolder, zip1) := zip_folder zipFolder nm zip in
          match ch with
          | Some cs => fold_left (fun z child => addNodeToZip child newFolder z) cs zip1
          | None => zip1
          end
      | file => zip_file zipFolder nm EmptyString zip
      end
  end.

(** The archive as populated before [generateAsync] is called. *)
Definition populateZip (rootNode : FileSystemNode) : Zip :=
  let (rootFolder, zip1) := zip_folder zip_root (name rootNode) new_JSZip in
  match children rootNode with
  | Some cs => fold_left (fun z child => addNodeToZip child rootFolder z) cs zip1
  | None => zip1
  end.

(** [jszip_loaded] is [typeof JSZip !== 'undefined']. *)
Definition createZipFromStructure (jszip_loaded : bool) (rootNode : FileSystemNode)
    : Settled Error * list (Effect Blob Error) :=
  if negb jszip_loaded
  then (resolved,
        [alert "JSZip library not found. Please check your internet connection and try again."])
  else
    match generateAsync (populateZip rootNode) with
    | inr content =>
        (resolved, [download (name rootNode ++ ".zip")%string content])
    | inl error =>
        (resolved,
         [console_error (Some "Failed to generate zip file:") (Some error);
          alert "An error occurred while creating the zip file."])
    end.

(** [handleDownload] of [App.tsx]: the effects, and [isLoading] afterwards. *)
Definition handleDownload (jszip_loaded : bool) (tree : option FileSystemNode)
    (isLoading : bool) : list (Effect Blob Error) * bool :=
  match tree with
  | None => ([], isLoading)
  | Some t =>
      match createZipFromStructure jszip_loaded t with
      | (resolved, effs) => (effs, false)
      | (rejected error, effs) =>
          (effs ++ [console_error None (Some error); alert "Failed to create zip file."],
           false)
      end
  end.
End ZipService.

(** Modelled from the spec: the JSZip library itself, which the page loads
    from outside the repository.  Section 4.2: a Directory node creates or
    reuses a directory entry named after it under the current parent
    entry, a File node creates an empty-content file entry under the
    current parent entry, and the root's name is the top-level directory
    entry.  An entry is keyed by its full path; a directory's path ends
    with a slash. *)
Record ZipObject : Type := mkEntry {
  entry_name : string;
  dir : bool;
  data : string
}.

(** Modelled from the spec: the lookup of an entry by its full path, for
    "create/reuse" (section 4.2); JSZip is not part of the repository. *)
Definition has_entry (nm : string) (files : list ZipObject) : bool :=
  existsb (fun o => String.eqb (entry_name o) nm) files.

(** Modelled from the spec: storing an entry under its full path, JSZip
    being absent from the repository.  An entry of the same path is
    replaced in place (the spec leaves name collisions to the writer). *)
Fixpoint put_entry (o : ZipObject) (files : list ZipObject) : list ZipObject :=
  match files with
  | [] => [o]
  | o' :: rest =>
      if String.eqb (entry_name o') (entry_name o) then o :: rest
      else o' :: put_entry o rest
  end.

(** Modelled from the spec: JSZip's [folder(name)], absent from the
    repository.  Section 4.2: "create/reuse an archive directory entry
    named [name] under the current parent directory entry"; the handle
    returned is the path of that directory. *)
Definition spec_folder (root arg : string) (files : list ZipObject)
    : string * list ZipObject :=
  let nm := (root ++ arg ++ "/")%string in
  (nm, if has_entry nm files then files else files ++ [mkEntry nm true EmptyString]).

(** Modelled from the spec: JSZip's [file(name, data)], absent from the
    repository.  Section 4.2: "create an empty-content file entry named
    [name] under the current parent directory entry". *)
Definition spec_file (root arg content : string) (files : list ZipObject)
    : list ZipObject :=
  put_entry (mkEntry (root ++ arg)%string false content) files.

(** Modelled from the spec: the JSZip writer as a whole, absent from the
    repository.  The blob is represented by the entries it packs; this
    writer never fails. *)
#[export] Instance SpecZip : JSZip (list ZipObject) string (list ZipObject) unit := {
  new_JSZip := [];
  zip_root := EmptyString;
  zip_folder := spec_folder;
  zip_file := spec_file;
  generateAsync := fun files => inr files
}.

(** Modelled from the spec: a JSZip writer that populates like [SpecZip]
    and whose generation fails ("underlying writer errors", section 4.2). *)
Definition FailingZip : JSZip (list ZipObject) string (list ZipObject) string := {|
  new_JSZip := [];
  zip_root := EmptyString;
  zip_folder := spec_folder;
  zip_file := spec_file;
  generateAsync := fun _ => inl "generation failed"
|}.

(** Observations on what an export did. *)
Definition is_download {Blob Error : Type} (e : Effect Blob Error) : bool :=
  match e with download _ _ => true | _ => false end.

Definition is_alert {Blob Error : Type} (e : Effect Blob Error) : bool :=
  match e with alert _ => true | _ => false end.

(** The spec's archive example: root "proj", its only child the Directory
    "src", whose only child is the File "a.txt". *)
Definition proj_tree : FileSystemNode :=
  mkNode 0 "root" "proj" folder
    (Some [mkNode 1 "root-1" "src" folder
             (Some [mkNode 2 "root-1-2" "a.txt" file None None]) (Some false)])
    (Some true).

(** ** Observations on trees *)

(** All nodes, in depth-first pre-order. *)
Fixpoint nodes (n : FileSystemNode) : list FileSystemNode :=
  match n with
  | mkNode _ _ _ _ ch _ =>
      n :: match ch with
           | Some cs => flat_map nodes cs
           | None => []
           end
  end.

Definition descendants (n : FileSystemNode) : list FileSystemNode := tl (nodes n).

Definition node_count (n : FileSystemNode) : nat := List.length (nodes n).

Definition ids (n : FileSystemNode) : list string := map id (nodes n).

(** The fields of a node other than its children. *)
Definition fields (n : FileSystemNode) : string * string * NodeType * option bool :=
  (id n, name n, type n, isExpanded n).

(** A tree with addresses and the [isExpanded] flags of folders blanked:
    two trees agree on it exactly when they are identical except in the
    flags of their Directory nodes (and in where they are allocated). *)
Fixpoint forget_expanded (n : FileSystemNode) : FileSystemNode :=
  match n with
  | mkNode _ i nm t ch e =>
      mkNode 0 i nm t
             (match ch with
              | Some cs => Some (map forget_expanded cs)
              | None => None
              end)
             (match t with folder => None | file => e end)
  end.

(** ** The data model's invariants (section 3) *)

Definition ROOT_ID : string := "root".

Definition root_is_sentinel (t : FileSystemNode) : Prop := id t = ROOT_ID.

Definition unique_ids (t : FileSystemNode) : Prop := NoDup (ids t).

Definition files_are_leaves (t : FileSystemNode) : Prop :=
  forall n, In n (nodes t) -> type n = file -> children_or_empty n = [].

(** Every object of the tree was allocated before [s], the next free
    address. *)
Definition allocated (s : loc) (t : FileSystemNode) : Prop :=
  forall n, In n (nodes t) -> ref n < s.

(** ** Rules that only rewrite fields *)

(** The pattern shared by the rename and toggle rules: a test on id and
    kind, and on a hit a copy with a rewritten name and flag. *)
Definition field_logic (test : string -> NodeType -> bool)
    (newName : string -> string) (newExpanded : option bool -> option bool) : Logic :=
  fun node =>
    if test (id node) (type node)
    then r' <- alloc ;;
         ret (Some (mkNode r' (id node) (newName (name node)) (type node)
                           (children node) (newExpanded (isExpanded node))))
    else ret (Some node).

(** Its effect on the fields of one node. *)
Definition rewrite_fields (test : string -> NodeType -> bool)
    (newName : string -> string) (newExpanded : option bool -> option bool)
    (f : string * string * NodeType * option bool)
    : string * string * NodeType * option bool :=
  match f with
  | (i, nm, t, e) => if test i t then (i, newName nm, t, newExpanded e) else f
  end.

(** ** Sample trees *)

(** [root] with a file [a] and a folder [b] holding the file [c]; [b] was
    never given an [isExpanded] field. *)
Definition sample_c : FileSystemNode := mkNode 3 "root-b-2" "c.txt" file None None.

Definition sample_b : FileSystemNode :=
  mkNode 2 "root-b" "lib" folder (Some [sample_c]) None.

Definition sample_a : FileSystemNode := mkNode 1 "root-a" "a.txt" file None None.

Definition sample_tree : FileSystemNode :=
  mkNode 0 "root" "my-project" folder (Some [sample_a; sample_b]) (Some true).

(** ** Notions used to state the properties *)

(** A rule is well behaved when it never moves the allocator backwards
    and answers with the node it was given, a freshly allocated node, or
    [null]. *)
Definition well_behaved (logic : Logic) : Prop :=
  forall n s,
    s <= snd (logic n s) /\
    match fst (logic n s) with
    | None => True
    | Some n' => n' = n \/ (s <= ref n' /\ ref n' < snd (logic n s))
    end.

(** The ids that lie outside the subtree of [d]. *)
Definition id_outside (d : FileSystemNode) (x : string) : bool :=
  negb (existsb (String.eqb x) (ids d)).

(** Induction on trees: the children of a node satisfy the property. *)

Section node_induction.
Variable P : FileSystemNode -> Prop.
Hypothesis P_leaf : forall r i nm t e, P (mkNode r i nm t None e).
Hypothesis P_children :
  forall r i nm t cs e, Forall P cs -> P (mkNode r i nm t (Some cs) e).

Fixpoint node_ind' (n : FileSystemNode) : P n :=
  match n with
  | mkNode r i nm t None e => P_leaf r i nm t e
  | mkNode r i nm t (Some cs) e =>
      P_children r i nm t cs e
        ((fix all (l : list FileSystemNode) : Forall P l :=
            match l with
            | [] => Forall_nil P
            | c :: l' => Forall_cons c (node_ind' c) (all l')
            end) cs)
  end.
End node_induction.

(** ** A writer that records the calls made on it *)

(** The calls [folder(name)] and [file(name, data)], with the folder
    handle they are made on: a handle is the list of the names of the
    [folder] calls that led to it. *)
Inductive ZipCall : Type :=
| call_folder (parent : list string) (nm : string)
| call_file (parent : list string) (nm : string) (content : string).

Definition call_parent (c : ZipCall) : list string :=
  match c with
  | call_folder parent _ => parent
  | call_file parent _ _ => parent
  end.

Definition call_writes_nothing (c : ZipCall) : Prop :=
  match c with
  | call_folder _ _ => True
  | call_file _ _ content => content = EmptyString
  end.

(** The kind of node a call is made for, and the name it passes. *)
Definition call_label (c : ZipCall) : NodeType * string :=
  match c with
  | call_folder _ nm => (folder, nm)
  | call_file _ nm _ => (file, nm)
  end.

Definition TraceZip : JSZip (list ZipCall) (list string) (list ZipCall) unit := {|
  new_JSZip := [];
  zip_root := [];
  zip_folder := fun h nm z => (h ++ [nm], z ++ [call_folder h nm]);
  zip_file := fun h nm content z => z ++ [call_file h nm content];
  generateAsync := fun z => inr z
|}.

(** ** App.tsx: creating a project and the confirmation dialogs *)

(** [handleCreateRoot] *)
Definition handleCreateRoot : M (option FileSystemNode) :=
  r <- alloc ;;
  ret (Some (mkNode r "root" "my-project" folder (Some []) (Some true))).

(** The [onConfirm] closures of the new-project, delete and load dialogs.
    The load dialog holds the value [JSON.parse] returned. *)
Inductive ConfirmAction : Type :=
| confirm_new_project
| confirm_delete (nodeId : string)
| confirm_load (loadedTree : FileSystemNode).

Record ConfirmationState : Type := mkConfirmation {
  title : string;
  onConfirm : ConfirmAction;
  confirmButtonText : string
}.

(** The part of the [App] state the dialogs act on. *)
Record AppState : Type := mkApp {
  tree : option FileSystemNode;
  confirmation : option ConfirmationState
}.

Definition handleNewProject (st : AppState) : AppState :=
  mkApp (tree st)
        (Some (mkConfirmation "Start a New Project?" confirm_new_project
                              "Yes, start new project")).

Definition handleDeleteNodeRequest (nodeId nodeName : string) (st : AppState) : AppState :=
  if String.eqb nodeId "root" then st
  else mkApp (tree st)
             (Some (mkConfirmation ("Delete " ++ String (ascii_of_nat 34) nodeName
                                      ++ String (ascii_of_nat 34) "?")%string
                                   (confirm_delete nodeId) "Delete")).

(** The test [handleLoadProject] makes on the parsed value:
    [loadedTree.id && loadedTree.name && loadedTree.type].  A parsed value
    is taken to have the shape of [FileSystemNode]: its [id] and [name]
    are strings, truthy when not empty, and its [type] is ['folder'] or
    ['file'], truthy either way.  Nothing below the top level is looked
    at. *)
Definition load_accepts (loadedTree : FileSystemNode) : bool :=
  negb (String.eqb (id loadedTree) EmptyString)
  && negb (String.eqb (name loadedTree) EmptyString).

(** [handleLoadProject], from [reader.onload] on: [parsed] is the value
    of [JSON.parse(text)], or nothing when reading or parsing threw.  The
    result is the new state and the alert shown, if any. *)
Definition handleLoadProject (parsed : option FileSystemNode) (st : AppState)
    : AppState * option string :=
  match parsed with
  | Some loadedTree =>
      if load_accepts loadedTree
      then (mkApp (tree st)
                  (Some (mkConfirmation "Load Project?" (confirm_load loadedTree)
                                        "Yes, load project")),
            None)
      else (st, Some "Invalid project file format.")
  | None =>
      (st, Some "Failed to load project file. It may be corrupted or in the wrong format.")
  end.

Definition run_confirm (a : ConfirmAction) (t : option FileSystemNode)
    : M (option FileSystemNode) :=
  match a with
  | confirm_new_project => ret None
  | confirm_delete nodeId => handleDeleteNode nodeId t
  | confirm_load loadedTree => ret (Some loadedTree)
  end.

(** The modal's [onClose]: [setConfirmation(null)]. *)
Definition modal_onClose (st : AppState) : AppState := mkApp (tree st) None.

(** The modal's [handleConfirm]: [onConfirm(); onClose();].  The modal is
    only rendered while a confirmation is open. *)
Definition modal_handleConfirm (st : AppState) : M AppState :=
  match confirmation st with
  | None => ret st
  | Some c => t' <- run_confirm (onConfirm c) (tree st) ;; ret (mkApp t' None)
  end.

(** ** components/DirectoryNode.tsx: rows, keys and pending actions *)

(** The rows the component renders for [node] at [depth]: the node
    itself, then its children when it is a folder that is expanded and
    has a [children] array. *)
Fixpoint rendered (depth : nat) (node : FileSystemNode) : list (FileSystemNode * nat) :=
  match node with
  | mkNode _ _ _ t ch e =>
      (node, depth) ::
      (if NodeType_eqb t folder && truthy e
       then match ch with
            | Some cs => flat_map (rendered (S depth)) cs
            | None => []
            end
       else [])
  end.

(** The Delete button of a row: among the buttons shown while the row
    is not being renamed, and only when [depth > 0]. *)
Definition row_offers_delete (st : EditorState) (depth : nat) : bool :=
  negb (isRenaming st) && Nat.ltb 0 depth.

(** components/ContextMenu.tsx: the Delete item is shown when [!isRoot],
    and [App] passes [isRoot = (node.id === 'root')]. *)
Definition menu_offers_delete (node : FileSystemNode) : bool :=
  negb (String.eqb (id node) "root").

Definition handleStartRename (node : FileSystemNode) (st : EditorState) : EditorState :=
  mkEditor (isAdding st) true (name node).

(** [PendingAction] of [App.tsx]. *)
Inductive PendingAction : Type :=
| pending_add (parentId : string) (nodeType : NodeType)
| pending_rename (nodeId : string).

(** The effect on [pendingAction]: whether [onToggleExpand(node.id)] is
    called, the editor state, and whether [onClearPendingAction] is
    called. *)
Definition pending_effect (pa : option PendingAction) (node : FileSystemNode)
    (st : EditorState) : bool * EditorState * bool :=
  match pa with
  | None => (false, st, false)
  | Some (pending_add parentId nodeType) =>
      if String.eqb parentId (id node)
      then (negb (truthy (isExpanded node)),
            mkEditor (Some nodeType) (isRenaming st) (inputValue st), true)
      else (false, st, false)
  | Some (pending_rename nodeId) =>
      if String.eqb nodeId (id node)
      then (false, handleStartRename node st, true)
      else (false, st, false)
  end.

(** The tree after the pending-action effect of the component of [node]. *)
Definition run_pending (pa : option PendingAction) (node : FileSystemNode)
    (st : EditorState) (t : option FileSystemNode) : M (option FileSystemNode) :=
  if fst (fst (pending_effect pa node st))
  then handleToggleExpand (id node) t
  else ret t.

(** ** The editing steps of the application *)

(** Load Project, followed by the confirmation of the dialog it opens:
    the tree afterwards.  A file that fails the test opens no dialog. *)
Definition load_and_confirm (loadedTree : FileSystemNode) (t : option FileSystemNode)
    : M (option FileSystemNode) :=
  st' <- modal_handleConfirm (fst (handleLoadProject (Some loadedTree) (mkApp t None))) ;;
  ret (tree st').

Section Steps.
(** What is assumed of the trees that come from outside: the project
    files that get loaded, and the tree restored from local storage. *)
Variable file_ok : FileSystemNode -> Prop.

(** One user action on the tree state: creating the root, confirming an
    inline edit on some node, toggling, a confirmed delete, the two bulk
    buttons, a confirmed new project, and Load Project.  For a load,
    [loadedTree] is what [JSON.parse] made of the file chosen, its
    objects lying below the allocator [s'] reached by parsing. *)
Inductive edit_step :
    option FileSystemNode * loc -> option FileSystemNode * loc -> Prop :=
| step_create_root t s :
    edit_step (t, s) (handleCreateRoot s)
| step_confirm_edit now rnd node st t s :
    edit_step (t, s) (confirm_edit now rnd node st t s)
| step_toggle nodeId t s :
    edit_step (t, s) (handleToggleExpand nodeId t s)
| step_delete nodeId t s :
    edit_step (t, s) (handleDeleteNode nodeId t s)
| step_set_all_expanded v t s :
    edit_step (t, s) (setAllExpanded v t s)
| step_new_project t s :
    edit_step (t, s) (run_confirm confirm_new_project t s)
| step_load_project loadedTree t s s' :
    file_ok loadedTree ->
    s <= s' ->
    allocated s' loadedTree ->
    edit_step (t, s) (load_and_confirm loadedTree t s').

Inductive edit_steps :
    option FileSystemNode * loc -> option FileSystemNode * loc -> Prop :=
| steps_none a : edit_steps a a
| steps_more a b c : edit_steps a b -> edit_step b c -> edit_steps a c.

(** The tree state [App] starts with: no tree when local storage holds
    nothing (or what it holds does not parse), and else what [JSON.parse]
    made of it, installed without any test. *)
Inductive app_start : option FileSystemNode * loc -> Prop :=
| start_empty s : app_start (None, s)
| start_restored savedTree s :
    file_ok savedTree ->
    allocated s savedTree ->
    app_start (Some savedTree, s).
End Steps.

(** No assumption on the trees that come from outside. *)
Definition any_file (loadedTree : FileSystemNode) : Prop := True.

(** What holds of every node of a tree the editor builds: a file has no
    children, and the name is not blank. *)
Definition node_ok (n : FileSystemNode) : Prop :=
  (type n = file -> children_or_empty n = []) /\ trim (name n) <> EmptyString.

Definition all_nodes (Q : FileSystemNode -> Prop) (t : FileSystemNode) : Prop :=
  forall n, In n (nodes t) -> Q n.

(** The invariant of the tree state. *)
Definition editor_invariant (a : option FileSystemNode * loc) : Prop :=
  match fst a with
  | None => True
  | Some t =>
      root_is_sentinel t /\ type t = folder /\ all_nodes node_ok t /\
      allocated (snd a) t
  end.

(** The part of it that speaks of the tree alone: what a project file has
    to satisfy for the invariant to survive its loading. *)
Definition project_ok (t : FileSystemNode) : Prop :=
  root_is_sentinel t /\ type t = folder /\ all_nodes node_ok t.

(** What holds of the tree state whatever is loaded: the root passes the
    test of Load Project. *)
Definition root_is_labelled (a : option FileSystemNode * loc) : Prop :=
  match fst a with
  | None => True
  | Some t => load_accepts t = true
  end.

(** * Properties *)

(** ** Worked examples *)

Example delete_sample_b :
  handleDeleteNode "root-b" (Some sample_tree) 4
  = (Some (mkNode 4 "root" "my-project" folder (Some [sample_a]) (Some true)), 5).
Proof. reflexivity. Qed.

Example delete_root_is_refused :
  handleDeleteNode "root" (Some sample_tree) 4 = (Some sample_tree, 4).
Proof. reflexivity. Qed.

Example rename_sample_c :
  handleRenameNode "root-b-2" "d.txt" (Some sample_tree) 4
  = (Some (mkNode 6 "root" "my-project" folder
             (Some [sample_a;
                    mkNode 5 "root-b" "lib" folder
                      (Some [mkNode 4 "root-b-2" "d.txt" file None None]) None])
             (Some true)), 7).
Proof. reflexivity. Qed.

Example rename_unknown_id_is_identity :
  handleRenameNode "nowhere" "d.txt" (Some sample_tree) 4 = (Some sample_tree, 4).
Proof. reflexivity. Qed.

Example add_under_sample_b :
  handleAddNode "1700000000000" "0.25" "root-b" "x.txt" file (Some sample_tree) 4
  = (Some (mkNode 6 "root" "my-project" folder
             (Some [sample_a;
                    mkNode 5 "root-b" "lib" folder
                      (Some [sample_c;
                             mkNode 4 "root-b-1700000000000-0.25" "x.txt" file None None])
                      (Some true)])
             (Some true)), 7).
Proof. reflexivity. Qed.

Example collapse_all_sample :
  setAllExpanded false (Some sample_tree) 4
  = (Some (mkNode 4 "root" "my-project" folder
             (Some [mkNode 5 "root-a" "a.txt" file None None;
                    mkNode 6 "root-b" "lib" folder
                      (Some [mkNode 7 "root-b-2" "c.txt" file None None])
                      (Some false)])
             (Some false)), 8).
Proof. reflexivity. Qed.

Example trim_blanks : trim "  a b  " = "a b".
Proof. reflexivity. Qed.

Example confirm_blank_input :
  handleConfirm sample_a (mkEditor None true "   ") = (None, editor_closed).
Proof. reflexivity. Qed.

(** ** The allocation monad and the array helpers *)

Lemma mapM_cons {A B : Type} (f : A -> M B) (x : A) (l : list A) (s : loc) :
  mapM f (x :: l) s =
  let (y, s1) := f x s in let (ys, s2) := mapM f l s1 in (y :: ys, s2).
Proof.
  cbn [mapM]. unfold bind, ret. destruct (f x s) as [y s1].
  destruct (mapM f l s1) as [ys s2]. reflexivity.
Qed.

Lemma mapM_app {A B : Type} (f : A -> M B) (l1 l2 : list A) (s : loc) :
  mapM f (l1 ++ l2) s =
  let (ys1, s1) := mapM f l1 s in
  let (ys2, s2) := mapM f l2 s1 in (ys1 ++ ys2, s2).
Proof.
  revert s. induction l1 as [|x l1 IH]; intros s.
  - cbn. unfold ret. destruct (mapM f l2 s). reflexivity.
  - rewrite <- app_comm_cons, !mapM_cons. destruct (f x s) as [y s1].
    rewrite IH. destruct (mapM f l1 s1) as [ys1 s2].
    destruct (mapM f l2 s2) as [ys2 s3]. reflexivity.
Qed.

Lemma mapM_length {A B : Type} (f : A -> M B) (l : list A) (s : loc) :
  List.length (fst (mapM f l s)) = List.length l.
Proof.
  revert s. induction l as [|x l IH]; intros s; [reflexivity|].
  rewrite mapM_cons. destruct (f x s) as [y s1]. specialize (IH s1).
  destruct (mapM f l s1) as [ys s2]. cbn in *. now rewrite IH.
Qed.

(** A step that hands every element back and leaves the allocator alone. *)
Lemma mapM_unchanged {A : Type} (f : A -> M (option A)) (l : list A) :
  (forall x, In x l -> forall s, f x s = (Some x, s)) ->
  forall s, mapM f l s = (map Some l, s).
Proof.
  induction l as [|x l IH]; intros H s; [reflexivity|].
  rewrite mapM_cons, (H x (or_introl eq_refl)), IH; [reflexivity|].
  intros y Hy. apply H. now right.
Qed.

Lemma mapM_fst_unchanged {A : Type} (f : A -> M (option A)) (l : list A) :
  (forall x, In x l -> forall s, fst (f x s) = Some x) ->
  forall s, fst (mapM f l s) = map Some l.
Proof.
  induction l as [|x l IH]; intros H s; [reflexivity|].
  rewrite mapM_cons. pose proof (H x (or_introl eq_refl) s) as Hx.
  destruct (f x s) as [y s1]. cbn in Hx. subst y.
  assert (IH' := IH (fun y Hy => H y (or_intror Hy)) s1).
  destruct (mapM f l s1) as [ys s2]. cbn in *. now rewrite IH'.
Qed.

Lemma filter_non_null_Some {A : Type} (l : list A) :
  filter_non_null (map Some l) = l.
Proof. induction l as [|x l IH]; cbn; [reflexivity | now rewrite IH]. Qed.

Lemma filter_non_null_app {A : Type} (l1 l2 : list (option A)) :
  filter_non_null (l1 ++ l2) = filter_non_null l1 ++ filter_non_null l2.
Proof.
  induction l1 as [|[x|] l1 IH]; cbn; [reflexivity | now rewrite IH | exact IH].
Qed.

Lemma filter_non_null_length {A : Type} (l : list (option A)) :
  List.length (filter_non_null l) <= List.length l.
Proof. induction l as [|[x|] l IH]; cbn; lia. Qed.

Lemma In_filter_non_null {A : Type} (x : A) (l : list (option A)) :
  In x (filter_non_null l) <-> In (Some x) l.
Proof.
  induction l as [|[y|] l IH]; cbn; [tauto | | ].
  - rewrite IH. split; intros [H|H]; auto; left; congruence.
  - rewrite IH. split; [auto | intros [H|H]; [discriminate | exact H]].
Qed.

(** [some] finds no index at which a list differs from itself. *)
Lemma some_from_same (pre l : list FileSystemNode) :
  some_from (fun child index => negb (same_object child (nth_error (pre ++ l) index)))
            l (List.length pre) = false.
Proof.
  revert pre. induction l as [|x l IH]; intros pre; [reflexivity|].
  cbn [some_from]. rewrite nth_error_app2, Nat.sub_diag by lia. cbn.
  rewrite Nat.eqb_refl. cbn.
  replace (pre ++ x :: l) with ((pre ++ [x]) ++ l) by now rewrite <- app_assoc.
  replace (S (List.length pre)) with (List.length (pre ++ [x]))
    by (rewrite length_app; cbn; lia).
  apply IH.
Qed.

Lemma childrenChanged_same (l : list FileSystemNode) : childrenChanged l l = false.
Proof.
  unfold childrenChanged, some. rewrite Nat.eqb_refl. cbn.
  exact (some_from_same [] l).
Qed.

(** When [childrenChanged] answers no, the two arrays hold the same
    addresses, index by index. *)
Lemma some_from_false (pre new old : list FileSystemNode) :
  some_from (fun child index => negb (same_object child (nth_error (pre ++ old) index)))
            new (List.length pre) = false ->
  List.length new = List.length old ->
  map ref new = map ref old.
Proof.
  revert pre old. induction new as [|x new IH]; intros pre [|y old] H Hlen;
    try discriminate; [reflexivity|].
  cbn [some_from] in H. apply orb_false_iff in H as [Hx Hrest].
  rewrite nth_error_app2, Nat.sub_diag in Hx by lia. cbn in Hx.
  apply negb_false_iff, Nat.eqb_eq in Hx. cbn. f_equal; [exact Hx|].
  apply (IH (pre ++ [y])); [| cbn in Hlen; lia].
  rewrite <- app_assoc, length_app. cbn.
  now replace (List.length pre + 1) with (S (List.length pre)) by lia.
Qed.

Lemma childrenChanged_false (new old : list FileSystemNode) :
  childrenChanged new old = false -> map ref new = map ref old.
Proof.
  unfold childrenChanged, some. intros H.
  apply orb_false_iff in H as [Hlen Hsome].
  apply negb_false_iff, Nat.eqb_eq in Hlen.
  exact (some_from_false [] new old Hsome Hlen).
Qed.

(** ** Unfolding the engine *)

Lemma modifyTree_leaf (logic : Logic) r i nm t e :
  modifyTree (mkNode r i nm t None e) logic = logic (mkNode r i nm t None e).
Proof. reflexivity. Qed.

Lemma modifyTree_children (logic : Logic) r i nm t cs e (s : loc) :
  modifyTree (mkNode r i nm t (Some cs) e) logic s =
  let (mapped, s1) := mapM (fun child => modifyTree child logic) cs s in
  if childrenChanged (filter_non_null mapped) cs
  then logic (mkNode s1 i nm t (Some (filter_non_null mapped)) e) (S s1)
  else logic (mkNode r i nm t (Some cs) e) s1.
Proof.
  cbn [modifyTree]. unfold bind at 1.
  destruct (mapM (fun child => modifyTree child logic) cs s) as [mapped s1].
  destruct (childrenChanged (filter_non_null mapped) cs); reflexivity.
Qed.

(** ** Traversal facts *)

Lemma nodes_children r i nm t cs e :
  nodes (mkNode r i nm t (Some cs) e) =
  mkNode r i nm t (Some cs) e :: flat_map nodes cs.
Proof. reflexivity. Qed.

Lemma nodes_self (n : FileSystemNode) : In n (nodes n).
Proof. destruct n as [r i nm t [cs|] e]; left; reflexivity. Qed.

Lemma nodes_child (n c x : FileSystemNode) :
  In c (children_or_empty n) -> In x (nodes c) -> In x (nodes n).
Proof.
  destruct n as [r i nm t [cs|] e]; cbn; [|tauto].
  intros Hc Hx. right. apply in_flat_map. now exists c.
Qed.

Lemma nodes_inv (n x : FileSystemNode) :
  In x (nodes n) ->
  x = n \/ exists c, In c (children_or_empty n) /\ In x (nodes c).
Proof.
  destruct n as [r i nm t [cs|] e]; cbn.
  - intros [H|H]; [now left | right]. now apply in_flat_map in H.
  - intros [H|[]]. now left.
Qed.

Lemma nodes_trans (a b c : FileSystemNode) :
  In a (nodes b) -> In b (nodes c) -> In a (nodes c).
Proof.
  revert a b. induction c as [r i nm t e | r i nm t cs e IH] using node_ind';
    intros a b Hab Hbc.
  - destruct Hbc as [<-|[]]. exact Hab.
  - rewrite nodes_children in Hbc. destruct Hbc as [<-|Hbc]; [exact Hab|].
    apply in_flat_map in Hbc as (c & Hc & Hbc).
    rewrite Forall_forall in IH.
    rewrite nodes_children. right. apply in_flat_map. exists c.
    split; [exact Hc | exact (IH c Hc a b Hab Hbc)].
Qed.

Lemma allocated_child (s : loc) (n c : FileSystemNode) :
  allocated s n -> In c (children_or_empty n) -> allocated s c.
Proof. intros H Hc x Hx. apply H. exact (nodes_child n c x Hc Hx). Qed.

Lemma allocated_mono (s s' : loc) (n : FileSystemNode) :
  allocated s n -> s <= s' -> allocated s' n.
Proof. intros H Hle x Hx. specialize (H x Hx). lia. Qed.

(** ** Referential stability *)

(** A node whose children all come back as themselves, and which the rule
    hands back, is returned as the very same object. *)
Lemma modifyTree_fixes (logic : Logic) (n : FileSystemNode) :
  (forall c, In c (children_or_empty n) ->
             forall s, fst (modifyTree c logic s) = Some c) ->
  (forall s, fst (logic n s) = Some n) ->
  forall s, fst (modifyTree n logic s) = Some n.
Proof.
  destruct n as [r i nm t [cs|] e]; cbn [children_or_empty children];
    intros Hcs Hn s; [|apply Hn].
  rewrite modifyTree_children.
  pose proof (mapM_fst_unchanged (fun child => modifyTree child logic) cs Hcs s) as Hm.
  destruct (mapM (fun child => modifyTree child logic) cs s) as [mapped s1].
  cbn in Hm. subst mapped.
  rewrite filter_non_null_Some, childrenChanged_same. apply Hn.
Qed.

Lemma modifyTree_fixes_tree (logic : Logic) (t : FileSystemNode) :
  (forall n, In n (nodes t) -> forall s, fst (logic n s) = Some n) ->
  forall s, fst (modifyTree t logic s) = Some t.
Proof.
  induction t as [r i nm ty e | r i nm ty cs e IH] using node_ind'; intros H.
  - intros s. apply H. left. reflexivity.
  - apply modifyTree_fixes; [|apply H, nodes_self].
    cbn [children_or_empty children]. intros c Hc.
    rewrite Forall_forall in IH. apply (IH c Hc).
    intros n Hn. apply H. eapply nodes_child; [exact Hc | exact Hn].
Qed.

(** The same for a rule that allocates nothing on the nodes it keeps:
    the allocator is left where it was. *)
Lemma modifyTree_unchanged (logic : Logic) (t : FileSystemNode) :
  (forall n, In n (nodes t) -> forall s, logic n s = (Some n, s)) ->
  forall s, modifyTree t logic s = (Some t, s).
Proof.
  induction t as [r i nm ty e | r i nm ty cs e IH] using node_ind'; intros H s.
  - apply H. left. reflexivity.
  - rewrite modifyTree_children, mapM_unchanged.
    + rewrite filter_non_null_Some, childrenChanged_same. apply H, nodes_self.
    + intros c Hc. rewrite Forall_forall in IH. apply (IH c Hc).
      intros n Hn. apply H. eapply nodes_child; [exact Hc | exact Hn].
Qed.

Lemma mapM_mono {A B : Type} (f : A -> M B) (l : list A) :
  (forall x, In x l -> forall s, s <= snd (f x s)) ->
  forall s, s <= snd (mapM f l s).
Proof.
  induction l as [|x l IH]; intros H s; [cbn; lia|].
  rewrite mapM_cons. pose proof (H x (or_introl eq_refl) s) as Hx.
  destruct (f x s) as [y s1].
  pose proof (IH (fun y Hy => H y (or_intror Hy)) s1) as Hl.
  destruct (mapM f l s1) as [ys s2]. cbn in *. lia.
Qed.

(** The engine answers with the original object, a fresh one, or [null]. *)
Lemma modifyTree_same_or_fresh (logic : Logic) :
  well_behaved logic ->
  forall t s,
    s <= snd (modifyTree t logic s) /\
    match fst (modifyTree t logic s) with
    | None => True
    | Some t' => t' = t \/ (s <= ref t' /\ ref t' < snd (modifyTree t logic s))
    end.
Proof.
  intros Hwb.
  induction t as [r i nm ty e | r i nm ty cs e IH] using node_ind'; intros s.
  - rewrite modifyTree_leaf. apply Hwb.
  - rewrite modifyTree_children.
    assert (Hm : s <= snd (mapM (fun child => modifyTree child logic) cs s)).
    { apply mapM_mono. intros c Hc s0. rewrite Forall_forall in IH.
      apply (IH c Hc s0). }
    destruct (mapM (fun child => modifyTree child logic) cs s) as [mapped s1].
    cbn in Hm.
    destruct (childrenChanged (filter_non_null mapped) cs).
    + destruct (Hwb (mkNode s1 i nm ty (Some (filter_non_null mapped)) e) (S s1))
        as [Hle Hres].
      split; [lia|].
      destruct (fst (logic _ (S s1))) as [t'|]; [|exact I].
      right. destruct Hres as [-> | [Hlo Hhi]]; cbn; lia.
    + destruct (Hwb (mkNode r i nm ty (Some cs) e) s1) as [Hle Hres].
      split; [lia|].
      destruct (fst (logic _ s1)) as [t'|]; [|exact I].
      destruct Hres as [-> | [Hlo Hhi]]; [now left | right; lia].
Qed.

Lemma mapM_Forall2 {A B : Type} (f : A -> M B) (R : A -> B -> Prop)
    (l : list A) (s : loc) :
  (forall x, In x l -> forall s', s <= s' ->
             R x (fst (f x s')) /\ s' <= snd (f x s')) ->
  Forall2 R l (fst (mapM f l s)).
Proof.
  revert s. induction l as [|x l IH]; intros s H; [constructor|].
  rewrite mapM_cons.
  destruct (H x (or_introl eq_refl) s (le_n s)) as [Hx Hle].
  destruct (f x s) as [y s1] eqn:E. cbn in Hx, Hle.
  assert (IH' : Forall2 R l (fst (mapM f l s1))).
  { apply IH. intros z Hz s' Hs'. apply H; [now right | lia]. }
  destruct (mapM f l s1) as [ys s2]. cbn in *. now constructor.
Qed.

(** Children that came back under their old addresses are the old
    children. *)
Lemma kept_children_same (s : loc) (cs : list FileSystemNode)
    (mapped : list (option FileSystemNode)) :
  Forall2 (fun c m => match m with
                      | None => True
                      | Some c' => c' = c \/ s <= ref c'
                      end) cs mapped ->
  (forall c, In c cs -> ref c < s) ->
  map ref (filter_non_null mapped) = map ref cs ->
  filter_non_null mapped = cs.
Proof.
  induction 1 as [|c m cs mapped Hcm Hrest IH]; intros Hlt Hrefs; [reflexivity|].
  destruct m as [c'|]; cbn in *.
  - injection Hrefs as Hr Hrefs. f_equal.
    + destruct Hcm as [->|Hge]; [reflexivity|].
      specialize (Hlt c (or_introl eq_refl)). lia.
    + apply IH; [intros x Hx; apply Hlt; now right | exact Hrefs].
  - exfalso. apply (f_equal (@List.length _)) in Hrefs.
    cbn in Hrefs. rewrite !length_map in Hrefs.
    pose proof (filter_non_null_length mapped) as Hle.
    apply Forall2_length in Hrest. lia.
Qed.

(** The node the rule receives: the fields of the original, and as
    children the surviving results of the children, in order.  It is the
    original object when nothing changed below and a fresh copy
    otherwise. *)
Lemma modifyTree_rule_input (logic : Logic) r i nm t cs e (s : loc) :
  well_behaved logic ->
  allocated s (mkNode r i nm t (Some cs) e) ->
  forall mapped s1,
    mapM (fun child => modifyTree child logic) cs s = (mapped, s1) ->
    s <= s1 /\
    exists r' s2,
      modifyTree (mkNode r i nm t (Some cs) e) logic s =
      logic (mkNode r' i nm t (Some (filter_non_null mapped)) e) s2 /\
      ((r' = r /\ s2 = s1 /\ filter_non_null mapped = cs) \/
       (r' = s1 /\ s2 = S s1)).
Proof.
  intros Hwb Halloc mapped s1 Hmap.
  assert (Hle : s <= s1).
  { pose proof (mapM_mono (fun child => modifyTree child logic) cs
                  (fun c _ s0 => proj1 (modifyTree_same_or_fresh logic Hwb c s0)) s) as H.
    now rewrite Hmap in H. }
  split; [exact Hle|].
  rewrite modifyTree_children, Hmap.
  destruct (childrenChanged (filter_non_null mapped) cs) eqn:Hch.
  - exists s1, (S s1). split; [reflexivity | right; auto].
  - exists r, s1.
    assert (Hsame : filter_non_null mapped = cs).
    { apply (kept_children_same s).
      - pose proof (mapM_Forall2 (fun child => modifyTree child logic)
                      (fun c m => match m with
                                  | None => True
                                  | Some c' => c' = c \/ s <= ref c'
                                  end) cs s) as HF.
        rewrite Hmap in HF. apply HF. intros c Hc s' Hs'.
        destruct (modifyTree_same_or_fresh logic Hwb c s') as [Hmono Hres].
        split; [|exact Hmono].
        destruct (fst (modifyTree c logic s')) as [c'|]; [|exact I].
        destruct Hres as [->|[Hlo _]]; [now left | right; lia].
      - intros c Hc. apply Halloc. rewrite nodes_children. right.
        apply in_flat_map. exists c. split; [exact Hc | apply nodes_self].
      - now apply childrenChanged_false. }
    rewrite Hsame. split; [reflexivity | left; auto].
Qed.

(** ** The four rules are well behaved *)

Lemma delete_logic_well_behaved nodeId : well_behaved (delete_logic nodeId).
Proof.
  intros n s. unfold delete_logic, ret. cbn.
  split; [lia|]. destruct (String.eqb (id n) nodeId); auto.
Qed.

Lemma rename_logic_well_behaved nodeId newName :
  well_behaved (rename_logic nodeId newName).
Proof.
  intros n s. unfold rename_logic, bind, alloc, ret.
  destruct (String.eqb (id n) nodeId); cbn; split; auto; right; lia.
Qed.

Lemma toggle_logic_well_behaved nodeId : well_behaved (toggle_logic nodeId).
Proof.
  intros n s. unfold toggle_logic, bind, alloc, ret.
  destruct (String.eqb (id n) nodeId && NodeType_eqb (type n) folder);
    cbn; split; auto; right; lia.
Qed.

Lemma add_logic_well_behaved parentId newNodeData :
  well_behaved (add_logic parentId newNodeData).
Proof.
  intros n s. unfold add_logic, bind, alloc, ret.
  destruct (String.eqb (id n) parentId && NodeType_eqb (type n) folder);
    cbn; split; auto; right; lia.
Qed.

(** Renaming at the node that carries the target id always builds a new
    object. *)
Lemma rename_at_target (nodeId newName : string) (a : FileSystemNode) (s : loc) :
  id a = nodeId ->
  exists a' s1,
    modifyTree a (rename_logic nodeId newName) s = (Some a', s1) /\
    s <= ref a' /\ ref a' < s1 /\ name a' = newName /\ id a' = id a.
Proof.
  destruct a as [r i nm t [cs|] e]; cbn [id]; intros ->.
  - rewrite modifyTree_children.
    pose proof (mapM_mono (fun child => modifyTree child (rename_logic nodeId newName)) cs
                  (fun c _ s0 => proj1 (modifyTree_same_or_fresh _
                     (rename_logic_well_behaved nodeId newName) c s0)) s) as Hle.
    destruct (mapM _ cs s) as [mapped s1]. cbn in Hle.
    destruct (childrenChanged (filter_non_null mapped) cs);
      unfold rename_logic, bind, alloc, ret; cbn; rewrite String.eqb_refl;
      eexists _, _; (split; [reflexivity | cbn; repeat split; lia]).
  - rewrite modifyTree_leaf. unfold rename_logic, bind, alloc, ret. cbn.
    rewrite String.eqb_refl. eexists _, _. split; [reflexivity|].
    cbn. repeat split; lia.
Qed.

Lemma rename_off_target (nodeId newName : string) (b : FileSystemNode) :
  ~ In nodeId (ids b) ->
  forall s, modifyTree b (rename_logic nodeId newName) s = (Some b, s).
Proof.
  intros Hno. apply modifyTree_unchanged. intros n Hn s.
  unfold rename_logic. destruct (String.eqb (id n) nodeId) eqn:E; [|reflexivity].
  apply String.eqb_eq in E. exfalso. apply Hno. subst nodeId.
  unfold ids. now apply in_map.
Qed.

(** Whatever the rule does elsewhere, a child that comes back as itself
    is still, as the same object, among the children of the node handed
    to the rule for its parent. *)
Lemma mapM_In_result {A B : Type} (f : A -> M B) (l : list A) (x : A) :
  In x l -> forall s, exists s0, In (fst (f x s0)) (fst (mapM f l s)).
Proof.
  induction l as [|y l IH]; intros Hx s; [destruct Hx|].
  rewrite mapM_cons. destruct (f y s) as [b s1] eqn:Ey.
  destruct Hx as [->|Hx].
  - exists s. rewrite Ey. destruct (mapM f l s1). now left.
  - destruct (IH Hx s1) as (s0 & Hin). exists s0.
    destruct (mapM f l s1). now right.
Qed.

Lemma modifyTree_keeps_child (logic : Logic) (p c : FileSystemNode) (s : loc) :
  In c (children_or_empty p) ->
  (forall s0, fst (modifyTree c logic s0) = Some c) ->
  exists p' s2,
    modifyTree p logic s = logic p' s2 /\
    fields p' = fields p /\ In c (children_or_empty p').
Proof.
  destruct p as [r i nm t [cs|] e]; cbn [children_or_empty children];
    intros Hc Hsame; [|destruct Hc].
  rewrite modifyTree_children.
  destruct (mapM_In_result (fun child => modifyTree child logic) cs c Hc s)
    as (s0 & Hin).
  rewrite Hsame in Hin.
  destruct (mapM (fun child => modifyTree child logic) cs s) as [mapped s1].
  cbn [fst] in Hin. apply In_filter_non_null in Hin.
  destruct (childrenChanged (filter_non_null mapped) cs);
    eexists _, _; (split; [reflexivity|]); split; auto.
Qed.

(** C1. Referential stability of the transform.  (1) A node whose
    children the transform returns as the very same objects, and which
    the rule hands back unchanged, is returned as the very same object;
    (2) such a node is still, as the same object, a child of the node
    handed to the rule for its parent.  (3) If the rule hands back every
    node of the tree, the transform of the tree is the tree itself, the
    same top-level object.  (4) Under a root with children [A; B],
    renaming A (whose id does not occur in B) yields a newly allocated
    root whose children are a newly allocated A carrying the new name,
    followed by B, the identical object. *)
Theorem transform_referential_stability :
  (forall (logic : Logic) (n : FileSystemNode),
      (forall c, In c (children_or_empty n) ->
                 forall s, fst (modifyTree c logic s) = Some c) ->
      (forall s, fst (logic n s) = Some n) ->
      forall s, fst (modifyTree n logic s) = Some n)
  /\
  (forall (logic : Logic) (p n : FileSystemNode) (s : loc),
      In n (children_or_empty p) ->
      (forall s0, fst (modifyTree n logic s0) = Some n) ->
      exists p' s2,
        modifyTree p logic s = logic p' s2 /\
        fields p' = fields p /\ In n (children_or_empty p'))
  /\
  (forall (logic : Logic) (t : FileSystemNode),
      (forall n, In n (nodes t) -> forall s, fst (logic n s) = Some n) ->
      forall s, fst (updateTree logic (Some t) s) = Some t)
  /\
  (forall r i nm t e (a b : FileSystemNode) (newName : string) (s : loc),
      allocated s (mkNode r i nm t (Some [a; b]) e) ->
      ~ In (id a) (ids b) ->
      exists root' a' s',
        handleRenameNode (id a) newName (Some (mkNode r i nm t (Some [a; b]) e)) s
          = (Some root', s') /\
        children root' = Some [a'; b] /\
        ref root' <> r /\ s <= ref root' /\
        ref a' <> ref a /\ s <= ref a' /\
        id a' = id a /\ name a' = newName).
Proof.
  split; [exact modifyTree_fixes|].
  split; [exact modifyTree_keeps_child|].
  split; [exact modifyTree_fixes_tree|].
  intros r i nm t e a b newName s Halloc Hb.
  assert (Hr : r < s) by (apply (Halloc _ (nodes_self _))).
  assert (Ha : ref a < s).
  { apply Halloc. eapply nodes_child; [|apply nodes_self]. cbn. now left. }
  unfold handleRenameNode, updateTree.
  destruct (rename_at_target (id a) newName a s eq_refl)
    as (a' & s1 & Ea & Hlo & Hhi & Hname & Hid).
  rewrite modifyTree_children, mapM_cons, Ea, mapM_cons.
  rewrite (rename_off_target (id a) newName b Hb s1).
  cbn [mapM ret filter_non_null].
  assert (Hch : childrenChanged [a'; b] [a; b] = true).
  { unfold childrenChanged, some. cbn.
    destruct (Nat.eqb_spec (ref a') (ref a)) as [E|_]; [lia | reflexivity]. }
  rewrite Hch. unfold rename_logic, bind, alloc, ret. cbn [id name type children isExpanded].
  destruct (String.eqb i (id a)); eexists _, a', _;
    (split; [reflexivity | cbn; repeat split; auto; lia]).
Qed.

Lemma transform_referential_stability_witness :
  exists root' a' s',
    handleRenameNode "a" "A2"
      (Some (mkNode 0 "root" "proj" folder
               (Some [mkNode 1 "a" "A" file None None;
                      mkNode 2 "b" "B" folder (Some []) None])
               (Some true))) 3
      = (Some root', s') /\
    children root' = Some [a'; mkNode 2 "b" "B" folder (Some []) None] /\
    ref root' <> 0 /\ 3 <= ref root' /\
    ref a' <> 1 /\ 3 <= ref a' /\
    id a' = "a" /\ name a' = "A2".
Proof.
  apply (proj2 (proj2 (proj2 transform_referential_stability))
           0 "root" "proj" folder (Some true)
           (mkNode 1 "a" "A" file None None)
           (mkNode 2 "b" "B" folder (Some []) None) "A2" 3).
  - intros n Hn. cbn in Hn.
    destruct Hn as [<-|[<-|[<-|[]]]]; cbn; lia.
  - cbn. intros [H|[]]. discriminate H.
Defined.

(** ** List facts used below *)

Lemma NoDup_app_disjoint {A : Type} (l1 l2 : list A) :
  NoDup (l1 ++ l2) -> forall a, In a l1 -> ~ In a l2.
Proof.
  induction l1 as [|x l1 IH]; cbn; intros H a Ha; [destruct Ha|].
  inversion H as [|? ? Hx Hnd]; subst. destruct Ha as [->|Ha].
  - intros H2. apply Hx. apply in_or_app. now right.
  - now apply IH.
Qed.

Lemma NoDup_map_inj {A B : Type} (f : A -> B) (l : list A) (x y : A) :
  NoDup (map f l) -> In x l -> In y l -> f x = f y -> x = y.
Proof.
  induction l as [|z l IH]; cbn; intros H Hx Hy E; [destruct Hx|].
  inversion H as [|? ? Hz Hnd]; subst.
  destruct Hx as [->|Hx], Hy as [->|Hy]; auto.
  - exfalso. apply Hz. rewrite E. now apply in_map.
  - exfalso. apply Hz. rewrite <- E. now apply in_map.
Qed.

Lemma filter_keep_all {A : Type} (p : A -> bool) (l : list A) :
  (forall x, In x l -> p x = true) -> filter p l = l.
Proof.
  induction l as [|x l IH]; cbn; intros H; [reflexivity|].
  rewrite (H x (or_introl eq_refl)), IH; [reflexivity|].
  intros y Hy. apply H. now right.
Qed.

Lemma filter_drop_all {A : Type} (p : A -> bool) (l : list A) :
  (forall x, In x l -> p x = false) -> filter p l = [].
Proof.
  induction l as [|x l IH]; cbn; intros H; [reflexivity|].
  rewrite (H x (or_introl eq_refl)). apply IH.
  intros y Hy. apply H. now right.
Qed.

Lemma in_flat_map_split {A B : Type} (f : A -> list B) (l : list A) (y : B) :
  In y (flat_map f l) -> exists l1 x l2, l = l1 ++ x :: l2 /\ In y (f x).
Proof.
  intros H. apply in_flat_map in H as (x & Hx & Hy).
  apply in_split in Hx as (l1 & l2 & ->). now exists l1, x, l2.
Qed.

Lemma existsb_eqb_In (x : string) (l : list string) :
  existsb (String.eqb x) l = true <-> In x l.
Proof.
  rewrite existsb_exists. split.
  - intros (y & Hy & E). apply String.eqb_eq in E. now subst.
  - intros H. exists x. split; [exact H | apply String.eqb_refl].
Qed.

(** ** More traversal facts *)

Lemma nodes_cons (n : FileSystemNode) : nodes n = n :: descendants n.
Proof. destruct n as [r i nm t [cs|] e]; reflexivity. Qed.

Lemma descendants_children r i nm t cs e :
  descendants (mkNode r i nm t (Some cs) e) = flat_map nodes cs.
Proof. reflexivity. Qed.

Lemma map_id_flat_map (cs : list FileSystemNode) :
  map id (flat_map nodes cs) = flat_map ids cs.
Proof.
  induction cs as [|c cs IH]; cbn; [reflexivity|].
  now rewrite map_app, IH.
Qed.

Lemma ids_children r i nm t cs e :
  ids (mkNode r i nm t (Some cs) e) = i :: flat_map ids cs.
Proof. unfold ids at 1. rewrite nodes_children. cbn. now rewrite map_id_flat_map. Qed.

Lemma node_count_children r i nm t cs e :
  node_count (mkNode r i nm t (Some cs) e) = S (List.length (flat_map nodes cs)).
Proof. reflexivity. Qed.

Lemma ids_subtree (d c : FileSystemNode) :
  In d (nodes c) -> forall x, In x (ids d) -> In x (ids c).
Proof.
  intros Hd x Hx. unfold ids in *. apply in_map_iff in Hx as (n & <- & Hn).
  apply in_map. exact (nodes_trans n d c Hn Hd).
Qed.

Lemma id_in_ids (n t : FileSystemNode) : In n (nodes t) -> In (id n) (ids t).
Proof. intros H. unfold ids. now apply in_map. Qed.

Lemma unique_ids_split r i nm t l c rr e :
  unique_ids (mkNode r i nm t (Some (l ++ c :: rr)) e) ->
  unique_ids c /\ ~ In i (ids c) /\
  (forall x, In x (ids c) ->
             ~ In x (flat_map ids l) /\ ~ In x (flat_map ids rr)).
Proof.
  unfold unique_ids. rewrite ids_children, flat_map_app. cbn [flat_map].
  intros H. inversion H as [|? ? Hi Hnd]; subst.
  pose proof (NoDup_app_remove_l _ _ Hnd) as Hcr.
  split; [exact (NoDup_app_remove_r _ _ Hcr)|].
  split.
  - intros Hc. apply Hi. apply in_or_app. right. apply in_or_app. now left.
  - intros x Hx. split.
    + intros Hl. apply (NoDup_app_disjoint _ _ Hnd x Hl).
      apply in_or_app. now left.
    + exact (NoDup_app_disjoint _ _ Hcr x Hx).
Qed.

(** One child [c] among children that all come back untouched. *)
Lemma mapM_around (f : FileSystemNode -> M (option FileSystemNode))
    (l : list FileSystemNode) (c : FileSystemNode) (rr : list FileSystemNode) (s : loc) :
  (forall x, In x l -> forall s0, f x s0 = (Some x, s0)) ->
  (forall x, In x rr -> forall s0, f x s0 = (Some x, s0)) ->
  mapM f (l ++ c :: rr) s =
  (map Some l ++ fst (f c s) :: map Some rr, snd (f c s)).
Proof.
  intros Hl Hr. rewrite mapM_app, (mapM_unchanged f l Hl), mapM_cons.
  destruct (f c s) as [m s1]. now rewrite (mapM_unchanged f rr Hr).
Qed.

(** The node given to the rule has the fields of the original. *)
Lemma modifyTree_fields (logic : Logic) (t : FileSystemNode) (s : loc) :
  exists p s2, modifyTree t logic s = logic p s2 /\ fields p = fields t.
Proof.
  destruct t as [r i nm ty [cs|] e].
  - rewrite modifyTree_children.
    destruct (mapM (fun child => modifyTree child logic) cs s) as [mapped s1].
    destruct (childrenChanged (filter_non_null mapped) cs);
      eexists _, _; split; reflexivity.
  - exists (mkNode r i nm ty None e), s. split; reflexivity.
Qed.

(** ** Delete *)

(** C4, as the code has it.  The protection is that of the sentinel id,
    not of the root as such.  Issued with the sentinel id, the delete
    handler leaves every tree state exactly as it was; and on a tree
    whose root carries the sentinel id, a delete with any target id
    whatsoever leaves the tree present, with a root that still has the
    root's id, name, kind and expanded flag. *)
Theorem delete_never_removes_the_root :
  (forall (tree : option FileSystemNode) (s : loc),
      handleDeleteNode ROOT_ID tree s = (tree, s))
  /\
  (forall (t : FileSystemNode) (nodeId : string) (s : loc),
      root_is_sentinel t ->
      exists t' s',
        handleDeleteNode nodeId (Some t) s = (Some t', s') /\
        fields t' = fields t).
Proof.
  split; [reflexivity|].
  intros t nodeId s Hroot. unfold handleDeleteNode.
  destruct (String.eqb nodeId "root") eqn:E.
  - exists t, s. split; reflexivity.
  - unfold updateTree.
    destruct (modifyTree_fields (delete_logic nodeId) t s) as (p & s2 & -> & Hp).
    exists p, s2. split; [|exact Hp].
    unfold delete_logic, ret.
    assert (Hid : id p = "root").
    { unfold fields in Hp. injection Hp as -> _ _ _. exact Hroot. }
    rewrite Hid, String.eqb_sym, E. reflexivity.
Qed.

Lemma delete_never_removes_the_root_witness :
  exists t' s',
    handleDeleteNode "root-1-0.5"
      (Some (mkNode 0 "root" "my-project" folder
               (Some [mkNode 1 "root-1-0.5" "a.txt" file None None]) (Some true))) 2
      = (Some t', s') /\
    fields t' = ("root", "my-project", folder, Some true).
Proof.
  apply (proj2 delete_never_removes_the_root
           (mkNode 0 "root" "my-project" folder
              (Some [mkNode 1 "root-1-0.5" "a.txt" file None None]) (Some true))
           "root-1-0.5" 2).
  reflexivity.
Defined.

(** The claim that no delete, whatever its target id, reduces the tree to
    absent fails on a tree whose root carries another id than the
    sentinel.  Load Project accepts such a tree, the context menu offers
    Delete on its root, the request is not refused, and the delete of
    the root's id leaves no tree. *)
Lemma delete_removes_a_root_without_the_sentinel_id :
  let t := mkNode 0 "top" "loaded" folder
             (Some [mkNode 1 "top-1" "a.txt" file None None]) (Some true) in
  load_accepts t = true /\
  unique_ids t /\
  menu_offers_delete t = true /\
  option_map onConfirm
    (confirmation (handleDeleteNodeRequest (id t) (name t) (mkApp (Some t) None)))
    = Some (confirm_delete (id t)) /\
  handleDeleteNode (id t) (Some t) 2 = (None, 2).
Proof.
  cbv zeta. split; [reflexivity|]. split; [|split; [reflexivity|split; reflexivity]].
  repeat constructor; cbn; intuition discriminate.
Qed.

Lemma id_outside_true (d : FileSystemNode) (x : string) :
  id_outside d x = true <-> ~ In x (ids d).
Proof.
  unfold id_outside. rewrite negb_true_iff, <- not_true_iff_false.
  now rewrite existsb_eqb_In.
Qed.

Lemma id_outside_false (d : FileSystemNode) (x : string) :
  id_outside d x = false <-> In x (ids d).
Proof.
  unfold id_outside. rewrite negb_false_iff. apply existsb_eqb_In.
Qed.

Lemma delete_absent (nodeId : string) (t : FileSystemNode) :
  ~ In nodeId (ids t) ->
  forall s, modifyTree t (delete_logic nodeId) s = (Some t, s).
Proof.
  intros Hno. apply modifyTree_unchanged. intros n Hn s.
  unfold delete_logic, ret. destruct (String.eqb (id n) nodeId) eqn:E; [|reflexivity].
  apply String.eqb_eq in E. exfalso. apply Hno. subst nodeId. now apply id_in_ids.
Qed.

Lemma delete_at (nodeId : string) (t : FileSystemNode) (s : loc) :
  id t = nodeId -> fst (modifyTree t (delete_logic nodeId) s) = None.
Proof.
  intros Hid.
  destruct (modifyTree_fields (delete_logic nodeId) t s) as (p & s2 & -> & Hp).
  unfold delete_logic, ret. cbn.
  replace (id p) with nodeId; [now rewrite String.eqb_refl|].
  unfold fields in Hp. injection Hp as -> _ _ _. now symmetry.
Qed.

(** What the pruned tree looks like, for a target [d] strictly below the
    root of a tree with unique ids. *)
Lemma delete_below (t : FileSystemNode) :
  forall (d : FileSystemNode) (s : loc),
    unique_ids t -> In d (descendants t) -> allocated s t ->
    exists t' s',
      modifyTree t (delete_logic (id d)) s = (Some t', s') /\
      fields t' = fields t /\
      node_count t' + node_count d = node_count t /\
      ids t' = filter (id_outside d) (ids t) /\
      exists p p' l rr,
        In p (nodes t) /\ In p' (nodes t') /\ fields p' = fields p /\
        children p = Some (l ++ d :: rr) /\ children p' = Some (l ++ rr).
Proof.
  induction t as [r i nm ty e | r i nm ty cs e IH] using node_ind';
    intros d s Huniq Hd Halloc; [destruct Hd|].
  rewrite descendants_children in Hd.
  apply in_flat_map_split in Hd as (l & c & rr & -> & Hdc).
  destruct (unique_ids_split _ _ _ _ _ _ _ _ Huniq) as (Hc & Hic & Hdisj).
  set (tid := id d) in *.
  assert (Htid : In tid (ids c)) by (apply id_in_ids; exact Hdc).
  assert (Hsub : forall x, In x (ids d) -> In x (ids c)) by (apply ids_subtree; exact Hdc).
  assert (Hi : i <> tid) by (intros ->; contradiction).
  assert (Hl : forall x, In x l -> forall s0,
             modifyTree x (delete_logic tid) s0 = (Some x, s0)).
  { intros x Hx. apply delete_absent. intros Hin.
    apply (proj1 (Hdisj tid Htid)). apply in_flat_map. now exists x. }
  assert (Hr : forall x, In x rr -> forall s0,
             modifyTree x (delete_logic tid) s0 = (Some x, s0)).
  { intros x Hx. apply delete_absent. intros Hin.
    apply (proj2 (Hdisj tid Htid)). apply in_flat_map. now exists x. }
  assert (Hkl : filter (id_outside d) (flat_map ids l) = flat_map ids l).
  { apply filter_keep_all. intros x Hx. apply id_outside_true. intros Hxd.
    exact (proj1 (Hdisj x (Hsub x Hxd)) Hx). }
  assert (Hkr : filter (id_outside d) (flat_map ids rr) = flat_map ids rr).
  { apply filter_keep_all. intros x Hx. apply id_outside_true. intros Hxd.
    exact (proj2 (Hdisj x (Hsub x Hxd)) Hx). }
  assert (Hki : id_outside d i = true).
  { apply id_outside_true. intros Hxd. exact (Hic (Hsub i Hxd)). }
  pose proof (mapM_around (fun child => modifyTree child (delete_logic tid))
                l c rr s Hl Hr) as Hmap.
  destruct (modifyTree_rule_input (delete_logic tid) r i nm ty (l ++ c :: rr) e s
              (delete_logic_well_behaved tid) Halloc _ _ Hmap)
    as (Hle & r' & s2 & Hrun & _).
  rewrite filter_non_null_app in Hrun. cbn [filter_non_null] in Hrun.
  rewrite !filter_non_null_Some in Hrun.
  assert (Hkeep : forall n, id n = i ->
            delete_logic tid n s2 = (Some n, s2)).
  { intros n Hn. unfold delete_logic, ret. rewrite Hn.
    destruct (String.eqb_spec i tid) as [E|_]; [contradiction | reflexivity]. }
  assert (Hcin : In c (l ++ c :: rr)) by (apply in_or_app; right; now left).
  destruct (String.eqb_spec (id c) tid) as [Eid|Nid].
  - (* the target is this child *)
    assert (d = c).
    { apply (NoDup_map_inj id (nodes c)); auto using nodes_self. }
    subst c. rewrite (delete_at tid d s Eid) in Hrun.
    rewrite Hrun, Hkeep by reflexivity.
    eexists _, _. split; [reflexivity|]. split; [reflexivity|].
    split; [|split].
    + rewrite !node_count_children, !flat_map_app, !length_app. cbn [flat_map].
      rewrite length_app. unfold node_count. lia.
    + rewrite !ids_children, !flat_map_app. cbn [flat_map filter].
      rewrite Hki, !filter_app, Hkl, Hkr. f_equal. f_equal.
      rewrite filter_drop_all; [reflexivity|].
      intros x Hx. now apply id_outside_false.
    + exists (mkNode r i nm ty (Some (l ++ d :: rr)) e),
        (mkNode r' i nm ty (Some (l ++ rr)) e), l, rr.
      repeat split; apply nodes_self.
  - (* the target lies deeper *)
    assert (Hdesc : In d (descendants c)).
    { rewrite nodes_cons in Hdc. destruct Hdc as [E|H]; [|exact H].
      exfalso. apply Nid. now subst. }
    rewrite Forall_forall in IH.
    destruct (IH c Hcin d s Hc Hdesc)
      as (c' & s1 & Ec & Hf & Hcount & Hids & p & p' & pl & pr & Hp & Hp' & Hpf & Hpc & Hpc').
    { eapply allocated_child; [exact Halloc | exact Hcin]. }
    fold tid in Ec. rewrite Ec in Hrun. cbn [fst] in Hrun.
    rewrite Hrun, Hkeep by reflexivity.
    eexists _, _. split; [reflexivity|]. split; [reflexivity|].
    split; [|split].
    + rewrite !node_count_children, !flat_map_app, !length_app. cbn [flat_map].
      rewrite !length_app. unfold node_count in *. lia.
    + rewrite !ids_children, !flat_map_app. cbn [flat_map filter].
      rewrite Hki, !filter_app, Hkl, Hkr, Hids. reflexivity.
    + exists p, p', pl, pr. repeat split; auto.
      * eapply nodes_child; [|exact Hp]. exact Hcin.
      * eapply nodes_child; [|exact Hp']. cbn. apply in_or_app. right. now left.
Qed.

(** C2, as the code has it.  On a tree with unique ids, deleting a node
    [d] below the root whose id is not the sentinel ['root'] leaves a
    tree with exactly [descendants d + 1] fewer nodes; no id of the
    subtree of [d] is left; the id of every other node is still there;
    the ids that remain appear in their original pre-order; and the
    parent of [d] keeps its other children, the same objects in the same
    order.  Nothing is asked of the root's own id. *)
Theorem delete_removes_exactly_the_subtree (t d : FileSystemNode) (s : loc) :
  unique_ids t ->
  id d <> ROOT_ID ->
  In d (descendants t) ->
  allocated s t ->
  exists t' s',
    handleDeleteNode (id d) (Some t) s = (Some t', s') /\
    node_count t' + (List.length (descendants d) + 1) = node_count t /\
    (forall n, In n (nodes d) -> ~ In (id n) (ids t')) /\
    (forall n, In n (nodes t) -> ~ In n (nodes d) -> In (id n) (ids t')) /\
    ids t' = filter (id_outside d) (ids t) /\
    exists p p' l rr,
      In p (nodes t) /\ In p' (nodes t') /\ fields p' = fields p /\
      children p = Some (l ++ d :: rr) /\ children p' = Some (l ++ rr).
Proof.
  intros Huniq Hne Hd Halloc. unfold ROOT_ID in Hne.
  assert (Hdt : In d (nodes t)) by (rewrite nodes_cons; now right).
  destruct (delete_below t d s Huniq Hd Halloc)
    as (t' & s' & Erun & _ & Hcount & Hids & Hsib).
  exists t', s'. unfold handleDeleteNode, updateTree.
  destruct (String.eqb_spec (id d) "root") as [E|_]; [contradiction|].
  split; [exact Erun|]. split; [|split; [|split; [|split]]].
  - unfold node_count in *. rewrite (nodes_cons d) in Hcount. cbn in Hcount. lia.
  - intros n Hn Hin. rewrite Hids in Hin. apply filter_In in Hin as [_ Hout].
    apply id_outside_true in Hout. apply Hout. now apply id_in_ids.
  - intros n Hn Hout. rewrite Hids. apply filter_In. split; [now apply id_in_ids|].
    apply id_outside_true. intros Hin. apply Hout.
    unfold ids in Hin. apply in_map_iff in Hin as (m & Em & Hm).
    assert (m = n).
    { apply (NoDup_map_inj id (nodes t)); auto. exact (nodes_trans m d t Hm Hdt). }
    now subst m.
  - exact Hids.
  - exact Hsib.
Qed.

Lemma sample_tree_unique_ids : unique_ids sample_tree.
Proof. repeat constructor; cbn; intuition discriminate. Qed.

Lemma sample_tree_allocated : allocated 4 sample_tree.
Proof.
  intros n Hn. cbn in Hn.
  destruct Hn as [<-|[<-|[<-|[<-|[]]]]]; cbn; lia.
Qed.

Lemma delete_removes_exactly_the_subtree_witness :
  exists t' s',
    handleDeleteNode (id sample_b) (Some sample_tree) 4 = (Some t', s') /\
    node_count t' + (List.length (descendants sample_b) + 1) = node_count sample_tree /\
    (forall n, In n (nodes sample_b) -> ~ In (id n) (ids t')) /\
    (forall n, In n (nodes sample_tree) -> ~ In n (nodes sample_b) -> In (id n) (ids t')) /\
    ids t' = filter (id_outside sample_b) (ids sample_tree) /\
    exists p p' l rr,
      In p (nodes sample_tree) /\ In p' (nodes t') /\ fields p' = fields p /\
      children p = Some (l ++ sample_b :: rr) /\ children p' = Some (l ++ rr).
Proof.
  apply (delete_removes_exactly_the_subtree sample_tree sample_b 4).
  - exact sample_tree_unique_ids.
  - discriminate.
  - cbn. auto.
  - exact sample_tree_allocated.
Defined.

(** The claim fails for a node below the root that carries the sentinel
    id, in a tree with unique ids whose root carries another id (Load
    Project accepts it): the handler refuses the delete, the tree is
    returned as it was, and the node and its id are still there. *)
Lemma delete_refuses_a_child_with_the_sentinel_id :
  let d := mkNode 1 "root" "a.txt" file None None in
  let t := mkNode 0 "top" "loaded" folder (Some [d]) (Some true) in
  load_accepts t = true /\
  unique_ids t /\
  In d (descendants t) /\
  allocated 2 t /\
  handleDeleteNode (id d) (Some t) 2 = (Some t, 2) /\
  node_count t + (List.length (descendants d) + 1) <> node_count t /\
  In (id d) (ids t).
Proof.
  cbv zeta. split; [reflexivity|]. split; [|split; [|split; [|split; [|split]]]].
  - repeat constructor; cbn; intuition discriminate.
  - cbn. auto.
  - intros n Hn. cbn in Hn. destruct Hn as [<-|[<-|[]]]; cbn; lia.
  - reflexivity.
  - cbn. lia.
  - cbn. auto.
Qed.

(** ** Add *)

Lemma add_absent (parentId : string) (new : FileSystemNode) (t : FileSystemNode) :
  ~ In parentId (ids t) ->
  forall s, modifyTree t (add_logic parentId new) s = (Some t, s).
Proof.
  intros Hno. apply modifyTree_unchanged. intros n Hn s.
  unfold add_logic. destruct (String.eqb_spec (id n) parentId) as [E|_]; [|reflexivity].
  exfalso. apply Hno. subst parentId. now apply id_in_ids.
Qed.

(** At the target folder, when the target id does not occur below it. *)
Lemma add_here (parentId : string) (new t : FileSystemNode) (s : loc) :
  id t = parentId -> type t = folder ->
  (forall c, In c (children_or_empty t) -> ~ In parentId (ids c)) ->
  modifyTree t (add_logic parentId new) s =
  (Some (mkNode s (id t) (name t) (type t)
                (Some (children_or_empty t ++ [new])) (Some true)), S s).
Proof.
  intros Hid Hty Hbelow.
  assert (Hhit : add_logic parentId new t s =
                 (Some (mkNode s (id t) (name t) (type t)
                               (Some (children_or_empty t ++ [new])) (Some true)), S s)).
  { unfold add_logic, bind, alloc, ret. now rewrite Hid, Hty, String.eqb_refl. }
  destruct t as [r i nm ty [cs|] e]; [|exact Hhit].
  rewrite modifyTree_children, mapM_unchanged.
  - rewrite filter_non_null_Some, childrenChanged_same. exact Hhit.
  - intros c Hc. apply add_absent. now apply Hbelow.
Qed.

Lemma unique_ids_root_not_below r i nm t cs e :
  unique_ids (mkNode r i nm t (Some cs) e) ->
  forall c, In c cs -> ~ In i (ids c).
Proof.
  unfold unique_ids. rewrite ids_children. intros H c Hc Hin.
  inversion H as [|? ? Hi _]; subst. apply Hi. apply in_flat_map. now exists c.
Qed.

(** The tree after an add below a folder [d], in a tree with unique ids. *)
Lemma add_below (new : FileSystemNode) (t : FileSystemNode) :
  forall (d : FileSystemNode) (s : loc),
    children_or_empty new = [] ->
    unique_ids t -> In d (nodes t) -> type d = folder -> allocated s t ->
    exists t' d' s',
      modifyTree t (add_logic (id d) new) s = (Some t', s') /\
      In d' (nodes t') /\
      fields d' = (id d, name d, folder, Some true) /\
      children d' = Some (children_or_empty d ++ [new]) /\
      (forall n, In n (nodes t) -> ~ In d (nodes n) -> In n (nodes t')) /\
      node_count t' = node_count t + 1 /\
      exists pre post, ids t = pre ++ post /\ ids t' = pre ++ id new :: post.
Proof.
  intros d s Hnew. revert d s.
  assert (Hnodes : nodes new = [new]).
  { destruct new as [r0 i0 n0 t0 [cs0|] e0]; cbn in *; now subst. }
  assert (Hidn : ids new = [id new]) by (unfold ids; now rewrite Hnodes).
  induction t as [r i nm ty e | r i nm ty cs e IH] using node_ind';
    intros d s Huniq Hd Hfolder Halloc.
  - (* a childless target *)
    destruct Hd as [<-|[]]. cbn [id] in *.
    rewrite add_here by (auto; intros c []).
    eexists _, _, _. split; [reflexivity|].
    split; [apply nodes_self|]. cbn in Hfolder. subst ty.
    split; [reflexivity|]. split; [reflexivity|].
    split; [intros n [<-|[]] Hn; exfalso; apply Hn; now left|].
    cbn [id name type children_or_empty children app].
    split; [rewrite node_count_children; cbn [flat_map]; rewrite Hnodes; reflexivity|].
    exists [i], []. rewrite ids_children. cbn [flat_map]. rewrite Hidn.
    split; reflexivity.
  - rewrite nodes_cons in Hd. destruct Hd as [<-|Hd].
    + (* the target is this node *)
      cbn [id] in *.
      rewrite add_here; auto;
        [|intros c Hc; exact (unique_ids_root_not_below _ _ _ _ _ _ Huniq c Hc)].
      cbn in Hfolder. subst ty. cbn [id name type children_or_empty children].
      eexists _, _, _. split; [reflexivity|].
      split; [apply nodes_self|].
      split; [reflexivity|]. split; [reflexivity|].
      split; [|split].
      * intros n Hn Hnot. rewrite nodes_children in Hn. destruct Hn as [<-|Hn].
        -- exfalso. apply Hnot. apply nodes_self.
        -- rewrite nodes_children, flat_map_app. right. apply in_or_app. now left.
      * rewrite !node_count_children, flat_map_app, length_app. cbn.
        rewrite Hnodes. cbn. lia.
      * exists (i :: flat_map ids cs), [].
        rewrite !ids_children, flat_map_app, app_nil_r. cbn [flat_map].
        rewrite Hidn. split; reflexivity.
    + (* the target lies in one of the children *)
      rewrite descendants_children in Hd.
      apply in_flat_map_split in Hd as (l & c & rr & -> & Hdc).
      destruct (unique_ids_split _ _ _ _ _ _ _ _ Huniq) as (Hc & Hic & Hdisj).
      set (pid := id d) in *.
      assert (Hpid : In pid (ids c)) by (apply id_in_ids; exact Hdc).
      assert (Hi : i <> pid) by (intros ->; contradiction).
      assert (Hl : forall x, In x l -> forall s0,
                 modifyTree x (add_logic pid new) s0 = (Some x, s0)).
      { intros x Hx. apply add_absent. intros Hin.
        apply (proj1 (Hdisj pid Hpid)). apply in_flat_map. now exists x. }
      assert (Hr : forall x, In x rr -> forall s0,
                 modifyTree x (add_logic pid new) s0 = (Some x, s0)).
      { intros x Hx. apply add_absent. intros Hin.
        apply (proj2 (Hdisj pid Hpid)). apply in_flat_map. now exists x. }
      pose proof (mapM_around (fun child => modifyTree child (add_logic pid new))
                    l c rr s Hl Hr) as Hmap.
      destruct (modifyTree_rule_input (add_logic pid new) r i nm ty (l ++ c :: rr) e s
                  (add_logic_well_behaved pid new) Halloc _ _ Hmap)
        as (Hle & r' & s2 & Hrun & _).
      assert (Hcin : In c (l ++ c :: rr)) by (apply in_or_app; right; now left).
      rewrite Forall_forall in IH.
      destruct (IH c Hcin d s Hc Hdc Hfolder (allocated_child _ _ _ Halloc Hcin))
        as (c' & d' & s1 & Ec & Hd' & Hfd & Hcd & Hframe & Hcount & pre & post & Hpre & Hpost).
      fold pid in Ec. rewrite Ec in Hrun. cbn [fst] in Hrun.
      rewrite filter_non_null_app in Hrun. cbn [filter_non_null] in Hrun.
      rewrite !filter_non_null_Some in Hrun.
      assert (Hmiss : forall n, id n = i ->
                add_logic pid new n s2 = (Some n, s2)).
      { intros n Hn. unfold add_logic. rewrite Hn.
        destruct (String.eqb_spec i pid) as [E|_]; [contradiction | reflexivity]. }
      rewrite Hrun, Hmiss by reflexivity.
      assert (Hc' : In c' (l ++ c' :: rr)) by (apply in_or_app; right; now left).
      eexists _, d', _. split; [reflexivity|].
      split; [eapply nodes_child; [exact Hc' | exact Hd']|].
      split; [exact Hfd|]. split; [exact Hcd|].
      split; [|split].
      * intros n Hn Hnot. rewrite nodes_children in Hn. destruct Hn as [<-|Hn].
        -- exfalso. apply Hnot. eapply nodes_child; [exact Hcin | exact Hdc].
        -- rewrite nodes_children. right.
           rewrite flat_map_app in *. cbn [flat_map] in *.
           apply in_app_or in Hn as [Hn|Hn]; [apply in_or_app; now left|].
           apply in_app_or in Hn as [Hn|Hn];
             apply in_or_app; right; apply in_or_app; [left | now right].
           now apply Hframe.
      * rewrite !node_count_children, !flat_map_app, !length_app. cbn [flat_map].
        rewrite !length_app. unfold node_count in *. lia.
      * exists (i :: flat_map ids l ++ pre), (post ++ flat_map ids rr).
        rewrite !ids_children, !flat_map_app. cbn [flat_map].
        rewrite Hpre, Hpost. cbn. rewrite <- !app_assoc. split; reflexivity.
Qed.




(** ** Rename and toggle: rules that only rewrite fields *)

Section FieldRule.
Variable test : string -> NodeType -> bool.
Variable newName : string -> string.
Variable newExpanded : option bool -> option bool.

Local Abbreviation rule := (field_logic test newName newExpanded).
Local Abbreviation F := (rewrite_fields test newName newExpanded).

Lemma field_logic_well_behaved : well_behaved rule.
Proof.
  intros n s. unfold field_logic, bind, alloc, ret.
  destruct (test (id n) (type n)); cbn; split; auto; right; lia.
Qed.

Lemma field_logic_run (p : FileSystemNode) (s : loc) :
  exists p',
    rule p s = (Some p', if test (id p) (type p) then S s else s) /\
    fields p' = F (fields p) /\ children p' = children p /\
    (if test (id p) (type p) then ref p' = s else p' = p).
Proof.
  unfold field_logic, rewrite_fields, fields, bind, alloc, ret.
  destruct (test (id p) (type p)); eexists; split; try reflexivity; cbn; auto.
Qed.

(** The rule keeps the shape of the tree and rewrites the fields node by
    node; the result lives below the new allocator. *)
Lemma field_logic_map (t : FileSystemNode) :
  forall s, allocated s t ->
  exists t' s',
    modifyTree t rule s = (Some t', s') /\ s <= s' /\ allocated s' t' /\
    map fields (nodes t') = map F (map fields (nodes t)).
Proof.
  induction t as [r i nm ty e | r i nm ty cs e IH] using node_ind'; intros s Halloc.
  - rewrite modifyTree_leaf.
    destruct (field_logic_run (mkNode r i nm ty None e) s) as (p' & Erun & Hf & Hc & Hp).
    rewrite Erun. eexists _, _. split; [reflexivity|].
    assert (Hn : nodes p' = [p']).
    { destruct p' as [r0 i0 n0 t0 ch0 e0]. cbn in Hc. now subst ch0. }
    assert (Hr : r < s) by (apply (Halloc _ (nodes_self _))).
    split; [destruct (test _ _); lia|]. split.
    + intros n. rewrite Hn. intros [<-|[]].
      destruct (test _ _); [lia | subst p'; cbn; lia].
    + rewrite Hn. cbn. now rewrite Hf.
  - assert (Hcs : exists cs' s1,
              mapM (fun child => modifyTree child rule) cs s = (map Some cs', s1) /\
              s <= s1 /\ (forall n, In n (flat_map nodes cs') -> ref n < s1) /\
              map fields (flat_map nodes cs') = map F (map fields (flat_map nodes cs))).
    { assert (Hall : forall c, In c cs -> allocated s c).
      { intros c Hc. eapply allocated_child; [exact Halloc | exact Hc]. }
      clear Halloc. revert s Hall.
      induction IH as [|c cs Hc _ IHcs]; intros s Hall.
      - exists [], s. cbn. repeat split; auto. intros n [].
      - destruct (Hc s (Hall c (or_introl eq_refl)))
          as (c' & s1 & Ec & Hle1 & Hal1 & Hm1).
        destruct (IHcs s1) as (cs' & s2 & Ecs & Hle2 & Hal2 & Hm2).
        { intros x Hx. eapply allocated_mono; [apply Hall; now right | exact Hle1]. }
        exists (c' :: cs'), s2. rewrite mapM_cons, Ec, Ecs.
        split; [reflexivity|]. split; [lia|]. split.
        + intros n Hn. cbn in Hn. apply in_app_or in Hn as [Hn|Hn].
          * specialize (Hal1 n Hn). lia.
          * now apply Hal2.
        + cbn [flat_map]. rewrite !map_app, Hm1, Hm2. reflexivity. }
    destruct Hcs as (cs' & s1 & Emap & Hle & Hal & Hm).
    destruct (modifyTree_rule_input rule r i nm ty cs e s
                field_logic_well_behaved Halloc _ _ Emap)
      as (_ & r' & s2 & Erun & Hcase).
    rewrite filter_non_null_Some in Erun.
    destruct (field_logic_run (mkNode r' i nm ty (Some cs') e) s2)
      as (p' & Elog & Hf & Hc & Hp).
    rewrite Erun, Elog. eexists _, _. split; [reflexivity|].
    assert (Hr : r < s) by (apply (Halloc _ (nodes_self _))).
    assert (Hs2 : s1 <= s2 /\ r' < S s2)
      by (destruct Hcase as [(-> & -> & _)|(-> & ->)]; lia).
    assert (Hn : nodes p' = p' :: flat_map nodes cs').
    { destruct p' as [r0 i0 n0 t0 ch0 e0]. cbn in Hc. now subst ch0. }
    split; [destruct (test _ _); lia|]. split.
    + intros n. rewrite Hn. intros [<-|Hin].
      * destruct (test _ _); [lia | subst p'; cbn; lia].
      * specialize (Hal n Hin). destruct (test _ _); lia.
    + rewrite Hn, nodes_children. cbn [map]. now rewrite Hf, Hm.
Qed.

(** Position by position. *)
Lemma field_logic_nth (t : FileSystemNode) (s : loc) :
  allocated s t ->
  exists t' s',
    modifyTree t rule s = (Some t', s') /\ allocated s' t' /\
    forall k n, nth_error (nodes t) k = Some n ->
                exists n', nth_error (nodes t') k = Some n' /\
                           fields n' = F (fields n).
Proof.
  intros Halloc.
  destruct (field_logic_map t s Halloc) as (t' & s' & Erun & _ & Hal & Hm).
  exists t', s'. split; [exact Erun|]. split; [exact Hal|].
  intros k n Hk.
  assert (Hk' : nth_error (map fields (nodes t')) k = Some (F (fields n))).
  { rewrite Hm, !nth_error_map, Hk. reflexivity. }
  rewrite nth_error_map in Hk'.
  destruct (nth_error (nodes t') k) as [n'|]; [|discriminate].
  exists n'. split; [reflexivity|]. cbn in Hk'. now injection Hk'.
Qed.
End FieldRule.

Lemma rename_logic_is_field_logic (nodeId newName : string) :
  rename_logic nodeId newName =
  field_logic (fun i _ => String.eqb i nodeId) (fun _ => newName) (fun e => e).
Proof. reflexivity. Qed.

Lemma toggle_logic_is_field_logic (nodeId : string) :
  toggle_logic nodeId =
  field_logic (fun i t => String.eqb i nodeId && NodeType_eqb t folder)
              (fun nm => nm) (fun e => Some (negb (truthy e))).
Proof. reflexivity. Qed.

(** ** Confirming the inline editor *)

(** C5, as the code has it.  Confirming an input that trims to the empty
    string issues no callback and leaves the tree state as it was.
    Confirming a rename with any other input issues the rename with the
    input exactly as typed: in the resulting tree every node carrying the
    id of the edited node has that raw input as its name, and every other
    field of every node is as before. *)
Theorem confirm_rename_installs_raw_input :
  (forall (now rnd : string) (node : FileSystemNode) (st : EditorState)
          (tree : option FileSystemNode) (s : loc),
      trim (inputValue st) = EmptyString ->
      handleConfirm node st = (None, editor_closed) /\
      confirm_edit now rnd node st tree s = (tree, s))
  /\
  (forall (now rnd : string) (node : FileSystemNode) (input : string)
          (t : FileSystemNode) (s : loc),
      trim input <> EmptyString ->
      allocated s t ->
      handleConfirm node (mkEditor None true input)
        = (Some (onRenameNode (id node) input), editor_closed) /\
      exists t' s',
        confirm_edit now rnd node (mkEditor None true input) (Some t) s = (Some t', s') /\
        forall k n,
          nth_error (nodes t) k = Some n ->
          exists n',
            nth_error (nodes t') k = Some n' /\
            id n' = id n /\ type n' = type n /\ isExpanded n' = isExpanded n /\
            name n' = if String.eqb (id n) (id node) then input else name n).
Proof.
  split.
  - intros now rnd node st tree s Hblank.
    unfold confirm_edit, handleConfirm. rewrite Hblank. cbn. split; reflexivity.
  - intros now rnd node input t s Hinput Halloc.
    assert (Hc : handleConfirm node (mkEditor None true input)
                 = (Some (onRenameNode (id node) input), editor_closed)).
    { unfold handleConfirm. cbn [inputValue isAdding isRenaming].
      destruct (String.eqb_spec (trim input) EmptyString) as [E|_]; [contradiction | reflexivity]. }
    split; [exact Hc|].
    unfold confirm_edit. rewrite Hc. cbn [fst run_callback].
    unfold handleRenameNode, updateTree. rewrite rename_logic_is_field_logic.
    destruct (field_logic_nth (fun i _ => String.eqb i (id node)) (fun _ => input)
                (fun e => e) t s Halloc) as (t' & s' & Erun & _ & Hnth).
    exists t', s'. split; [exact Erun|].
    intros k n Hk. destruct (Hnth k n Hk) as (n' & Hk' & Hf).
    exists n'. split; [exact Hk'|].
    unfold rewrite_fields, fields in Hf.
    destruct (String.eqb (id n) (id node)); injection Hf as -> -> -> ->; auto.
Qed.

Lemma confirm_rename_installs_raw_input_witness :
  handleConfirm sample_a (mkEditor None true " notes.txt ")
    = (Some (onRenameNode (id sample_a) " notes.txt "), editor_closed) /\
  exists t' s',
    confirm_edit "0" "0" sample_a (mkEditor None true " notes.txt ") (Some sample_tree) 4
      = (Some t', s') /\
    forall k n,
      nth_error (nodes sample_tree) k = Some n ->
      exists n',
        nth_error (nodes t') k = Some n' /\
        id n' = id n /\ type n' = type n /\ isExpanded n' = isExpanded n /\
        name n' = if String.eqb (id n) (id sample_a) then " notes.txt " else name n.
Proof.
  apply (proj2 confirm_rename_installs_raw_input "0" "0" sample_a " notes.txt "
           sample_tree 4).
  - vm_compute. discriminate.
  - exact sample_tree_allocated.
Defined.

(** The claim that the installed name is the trimmed input fails: typing
    [" notes.txt "] over [sample_a] passes the emptiness test and leaves
    the node named [" notes.txt "], blanks included, while the trimmed
    input is ["notes.txt"]. *)
Lemma confirm_rename_keeps_blanks :
  trim " notes.txt " = "notes.txt" /\
  exists t' s' n',
    confirm_edit "0" "0" sample_a (mkEditor None true " notes.txt ") (Some sample_tree) 4
      = (Some t', s') /\
    nth_error (nodes sample_tree) 1 = Some sample_a /\
    nth_error (nodes t') 1 = Some n' /\
    id n' = id sample_a /\
    name n' = " notes.txt " /\
    name n' <> trim " notes.txt ".
Proof.
  split; [reflexivity|].
  eexists _, _, _. split; [vm_compute; reflexivity|].
  split; [reflexivity|]. split; [reflexivity|]. split; [reflexivity|].
  split; [reflexivity|]. vm_compute. discriminate.
Qed.

(** ** Toggle *)

(** C10. Toggling a folder that has no [isExpanded] field.  If the node
    at position [k] of the tree is a folder without the flag, then after
    toggle-expanded on its id the node at position [k] is that folder
    with the flag set to [true]; after a second toggle on the same id it
    has the flag set to [false] (and not absent again). *)
Theorem first_toggle_expands_unflagged_folder
    (t d : FileSystemNode) (k : nat) (s : loc) :
  nth_error (nodes t) k = Some d ->
  type d = folder ->
  isExpanded d = None ->
  allocated s t ->
  exists t1 s1 d1,
    handleToggleExpand (id d) (Some t) s = (Some t1, s1) /\
    nth_error (nodes t1) k = Some d1 /\
    id d1 = id d /\ name d1 = name d /\ type d1 = folder /\
    isExpanded d1 = Some true /\
    exists t2 s2 d2,
      handleToggleExpand (id d) (Some t1) s1 = (Some t2, s2) /\
      nth_error (nodes t2) k = Some d2 /\
      id d2 = id d /\ name d2 = name d /\ type d2 = folder /\
      isExpanded d2 = Some false.
Proof.
  intros Hk Hfolder Hflag Halloc.
  unfold handleToggleExpand, updateTree. rewrite toggle_logic_is_field_logic.
  set (test := fun (i : string) (ty : NodeType) =>
                 String.eqb i (id d) && NodeType_eqb ty folder).
  set (flip := fun e : option bool => Some (negb (truthy e))).
  destruct (field_logic_nth test (fun nm => nm) flip t s Halloc)
    as (t1 & s1 & E1 & Hal1 & Hnth1).
  destruct (Hnth1 k d Hk) as (d1 & Hk1 & Hf1).
  destruct (field_logic_nth test (fun nm => nm) flip t1 s1 Hal1)
    as (t2 & s2 & E2 & _ & Hnth2).
  destruct (Hnth2 k d1 Hk1) as (d2 & Hk2 & Hf2).
  unfold rewrite_fields, fields, test, flip in Hf1.
  rewrite Hfolder, Hflag, String.eqb_refl in Hf1. cbn in Hf1.
  injection Hf1 as Hi1 Hn1 Ht1 He1.
  unfold rewrite_fields, fields, test, flip in Hf2.
  rewrite Hi1, Ht1, He1, String.eqb_refl in Hf2. cbn in Hf2.
  injection Hf2 as Hi2 Hn2 Ht2 He2.
  exists t1, s1, d1. split; [exact E1|]. split; [exact Hk1|].
  repeat (split; [congruence|]).
  exists t2, s2, d2. split; [exact E2|]. split; [exact Hk2|].
  repeat (split; [congruence|]). exact He2.
Qed.

Lemma first_toggle_expands_unflagged_folder_witness :
  exists t1 s1 d1,
    handleToggleExpand (id sample_b) (Some sample_tree) 4 = (Some t1, s1) /\
    nth_error (nodes t1) 2 = Some d1 /\
    id d1 = id sample_b /\ name d1 = name sample_b /\ type d1 = folder /\
    isExpanded d1 = Some true /\
    exists t2 s2 d2,
      handleToggleExpand (id sample_b) (Some t1) s1 = (Some t2, s2) /\
      nth_error (nodes t2) 2 = Some d2 /\
      id d2 = id sample_b /\ name d2 = name sample_b /\ type d2 = folder /\
      isExpanded d2 = Some false.
Proof.
  apply (first_toggle_expands_unflagged_folder sample_tree sample_b 2 4).
  - reflexivity.
  - reflexivity.
  - reflexivity.
  - exact sample_tree_allocated.
Defined.

(** ** Bulk expand / collapse *)

Lemma files_are_leaves_child (n c : FileSystemNode) :
  files_are_leaves n -> In c (children_or_empty n) -> files_are_leaves c.
Proof. intros H Hc x Hx. apply H. exact (nodes_child n c x Hc Hx). Qed.

(** What [recursiveSet] builds: the same tree up to addresses and folder
    flags; and, when files have no children, a tree all of whose folders
    carry the requested flag. *)
Lemma recursiveSet_spec (v : bool) (t : FileSystemNode) :
  forall s,
  exists t' s',
    recursiveSet v t s = (t', s') /\
    forget_expanded t' = forget_expanded t /\
    (files_are_leaves t ->
     files_are_leaves t' /\
     forall n, In n (nodes t') -> type n = folder -> isExpanded n = Some v).
Proof.
  induction t as [r i nm ty e | r i nm ty cs e IH] using node_ind'; intros s.
  - destruct ty; eexists _, _; (split; [reflexivity|]); (split; [reflexivity|]);
      intros _; (split; [intros n [<-|[]]; reflexivity|]);
      intros n [<-|[]]; cbn; intros H; [reflexivity | discriminate].
  - destruct ty.
    + (* a folder: the children are visited *)
      assert (Hcs : forall s0, exists cs' s1,
                mapM (recursiveSet v) cs s0 = (cs', s1) /\
                map forget_expanded cs' = map forget_expanded cs /\
                ((forall c, In c cs -> files_are_leaves c) ->
                 forall n, In n (flat_map nodes cs') ->
                   (type n = file -> children_or_empty n = []) /\
                   (type n = folder -> isExpanded n = Some v))).
      { induction IH as [|c cs Hc _ IHcs]; intros s0.
        - exists [], s0. split; [reflexivity|]. split; [reflexivity|].
          intros _ n [].
        - destruct (Hc s0) as (c' & s1 & Ec & Hfc & Hlc).
          destruct (IHcs s1) as (cs' & s2 & Ecs & Hfcs & Hlcs).
          exists (c' :: cs'), s2. rewrite mapM_cons, Ec, Ecs.
          split; [reflexivity|]. split; [cbn; now rewrite Hfc, Hfcs|].
          intros Hall n Hn. cbn in Hn. apply in_app_or in Hn as [Hn|Hn].
          + destruct (Hlc (Hall c (or_introl eq_refl))) as [Hleaf Hflag].
            split; [apply Hleaf, Hn | apply Hflag, Hn].
          + apply Hlcs; [|exact Hn]. intros x Hx. apply Hall. now right. }
      destruct (Hcs (S s)) as (cs' & s1 & Ecs & Hf & Hl).
      exists (mkNode s i nm folder (Some cs') (Some v)), s1.
      split.
      { cbn [recursiveSet]. unfold bind at 1. unfold alloc.
        unfold bind. fold (mapM (recursiveSet v)). now rewrite Ecs. }
      split; [cbn; now rewrite Hf|].
      intros Hleaves.
      assert (Hall : forall c, In c cs -> files_are_leaves c).
      { intros c Hc. eapply files_are_leaves_child; [exact Hleaves | exact Hc]. }
      split.
      * intros n Hn. rewrite nodes_children in Hn. destruct Hn as [<-|Hn].
        -- discriminate.
        -- apply (Hl Hall n Hn).
      * intros n Hn. rewrite nodes_children in Hn. destruct Hn as [<-|Hn].
        -- reflexivity.
        -- apply (Hl Hall n Hn).
    + (* a file is copied as it is *)
      eexists _, _. split; [reflexivity|]. split; [reflexivity|].
      intros Hleaves.
      assert (Hnone : cs = []).
      { exact (Hleaves _ (nodes_self _) eq_refl). }
      subst cs. split.
      * intros n [<-|[]]. reflexivity.
      * intros n [<-|[]]. discriminate.
Qed.

(** C9. Bulk expand/collapse.  [setAllExpanded v] returns a tree that is
    the original up to the flags of its Directory nodes (same ids, names,
    kinds and children structure, File nodes with all their fields); on a
    tree of the data model (File nodes have no children) every Directory
    node of the result has its flag equal to [v].  In particular,
    collapsing everything and then expanding everything gives a tree all
    of whose Directory nodes are expanded, and which is the original up
    to Directory flags. *)
Theorem setAllExpanded_sets_every_folder :
  (forall (v : bool) (t : FileSystemNode) (s : loc),
      exists t' s',
        setAllExpanded v (Some t) s = (Some t', s') /\
        forget_expanded t' = forget_expanded t /\
        (files_are_leaves t ->
         forall n, In n (nodes t') -> type n = folder -> isExpanded n = Some v))
  /\
  (forall (t : FileSystemNode) (s : loc),
      files_are_leaves t ->
      exists t1 s1 t2 s2,
        setAllExpanded false (Some t) s = (Some t1, s1) /\
        setAllExpanded true (Some t1) s1 = (Some t2, s2) /\
        forget_expanded t2 = forget_expanded t /\
        forall n, In n (nodes t2) -> type n = folder -> isExpanded n = Some true).
Proof.
  split.
  - intros v t s. destruct (recursiveSet_spec v t s) as (t' & s' & E & Hf & Hl).
    exists t', s'. unfold setAllExpanded, bind, ret. rewrite E.
    split; [reflexivity|]. split; [exact Hf|]. intros H. apply (Hl H).
  - intros t s Hleaves.
    destruct (recursiveSet_spec false t s) as (t1 & s1 & E1 & Hf1 & Hl1).
    destruct (recursiveSet_spec true t1 s1) as (t2 & s2 & E2 & Hf2 & Hl2).
    exists t1, s1, t2, s2. unfold setAllExpanded, bind, ret. rewrite E1, E2.
    split; [reflexivity|]. split; [reflexivity|]. split; [congruence|].
    apply Hl2, Hl1, Hleaves.
Qed.

Lemma sample_tree_files_are_leaves : files_are_leaves sample_tree.
Proof.
  intros n Hn. cbn in Hn.
  destruct Hn as [<-|[<-|[<-|[<-|[]]]]]; cbn; intros H; reflexivity || discriminate.
Qed.

Lemma setAllExpanded_sets_every_folder_witness :
  exists t1 s1 t2 s2,
    setAllExpanded false (Some sample_tree) 4 = (Some t1, s1) /\
    setAllExpanded true (Some t1) s1 = (Some t2, s2) /\
    forget_expanded t2 = forget_expanded sample_tree /\
    forall n, In n (nodes t2) -> type n = folder -> isExpanded n = Some true.
Proof.
  apply (proj2 setAllExpanded_sets_every_folder sample_tree 4).
  exact sample_tree_files_are_leaves.
Defined.

(** ** The archive walk *)

(** C6, as the code has it.  For a root Directory named "proj" whose only
    child is a Directory "src" whose only child is a File "a.txt", the
    archive has exactly three entries, in this order: the directory
    "proj/" made for the root itself, the directory "proj/src/", and the
    file "proj/src/a.txt"; the content of every entry has length zero;
    and this archive is what the export offers as "proj.zip". *)
Theorem archive_of_proj_src_a_txt :
  forall r i e r1 i1 e1 r2 i2 ch2 e2,
    let rootNode :=
      mkNode r i "proj" folder
        (Some [mkNode r1 i1 "src" folder
                 (Some [mkNode r2 i2 "a.txt" file ch2 e2]) e1]) e in
    populateZip rootNode
      = [mkEntry "proj/" true EmptyString;
         mkEntry "proj/src/" true EmptyString;
         mkEntry "proj/src/a.txt" false EmptyString] /\
    Forall (fun o => String.length (data o) = 0) (populateZip rootNode) /\
    createZipFromStructure true rootNode
      = (resolved, [download "proj.zip" (populateZip rootNode)]).
Proof.
  intros. split; [reflexivity|]. split; [|reflexivity].
  repeat constructor.
Qed.

(** The claim of exactly two entries fails on the spec's own example: the
    archive has three, the first being the root's directory "proj/". *)
Lemma archive_of_proj_has_root_entry :
  populateZip proj_tree
    = [mkEntry "proj/" true EmptyString; mkEntry "proj/src/" true EmptyString;
       mkEntry "proj/src/a.txt" false EmptyString] /\
  List.length (populateZip proj_tree) <> 2 /\
  populateZip proj_tree
    <> [mkEntry "proj/src/" true EmptyString; mkEntry "proj/src/a.txt" false EmptyString].
Proof. repeat split; vm_compute; discriminate. Qed.

Lemma forget_expanded_inv (n1 n2 : FileSystemNode) :
  forget_expanded n1 = forget_expanded n2 ->
  name n1 = name n2 /\ type n1 = type n2 /\
  match children n1, children n2 with
  | Some cs1, Some cs2 => map forget_expanded cs1 = map forget_expanded cs2
  | None, None => True
  | _, _ => False
  end.
Proof.
  destruct n1 as [r1 i1 nm1 ty1 [cs1|] e1], n2 as [r2 i2 nm2 ty2 [cs2|] e2];
    cbn; intros H; try discriminate; injection H; intros; auto.
Qed.

(** The calls recorded by [TraceZip] come one after the other. *)
Lemma trace_fold (h : list string) (cs : list FileSystemNode) :
  Forall (fun c => forall h0 z,
            addNodeToZip (W := TraceZip) c h0 z
            = z ++ addNodeToZip (W := TraceZip) c h0 []) cs ->
  forall a,
    fold_left (fun z child => addNodeToZip (W := TraceZip) child h z) cs a
    = a ++ flat_map (fun c => addNodeToZip (W := TraceZip) c h []) cs.
Proof.
  induction 1 as [|c cs Hc _ IH]; intros a; cbn [fold_left flat_map].
  - now rewrite app_nil_r.
  - rewrite IH, Hc, <- app_assoc. reflexivity.
Qed.

Lemma trace_append (n : FileSystemNode) :
  forall h z,
    addNodeToZip (W := TraceZip) n h z = z ++ addNodeToZip (W := TraceZip) n h [].
Proof.
  induction n as [r i nm ty e | r i nm ty cs e IH] using node_ind'; intros h z.
  - destruct ty; reflexivity.
  - destruct ty; [|reflexivity].
    cbn [addNodeToZip zip_folder TraceZip].
    rewrite !(trace_fold (h ++ [nm]) cs IH). cbn [app]. now rewrite <- app_assoc.
Qed.

Lemma trace_folder r i nm cs e (h : list string) :
  addNodeToZip (W := TraceZip) (mkNode r i nm folder (Some cs) e) h []
  = call_folder h nm
    :: flat_map (fun c => addNodeToZip (W := TraceZip) c (h ++ [nm]) []) cs.
Proof.
  cbn [addNodeToZip zip_folder TraceZip].
  rewrite (trace_fold (h ++ [nm]) cs); [reflexivity|].
  apply Forall_forall. intros c _. apply trace_append.
Qed.

(** When files have no children, the walk makes one call for every node
    of the subtree, in pre-order, of the node's kind and with its name:
    it looks at no [isExpanded]. *)
Lemma trace_labels (n : FileSystemNode) :
  files_are_leaves n ->
  forall h,
    map call_label (addNodeToZip (W := TraceZip) n h [])
    = map (fun m => (type m, name m)) (nodes n).
Proof.
  induction n as [r i nm ty e | r i nm ty cs e IH] using node_ind'; intros Hleaves h.
  - destruct ty; reflexivity.
  - destruct ty.
    + rewrite trace_folder, nodes_children. cbn [map call_label type name]. f_equal.
      assert (Hcs : forall c, In c cs -> files_are_leaves c).
      { intros c Hc. eapply files_are_leaves_child; [exact Hleaves | exact Hc]. }
      clear Hleaves. induction IH as [|c cs Hc _ IHcs]; [reflexivity|].
      cbn [flat_map]. rewrite !map_app. f_equal.
      * apply Hc. apply Hcs. now left.
      * apply IHcs. intros z Hz. apply Hcs. now right.
    + pose proof (Hleaves _ (nodes_self _) eq_refl) as Hnone. cbn in Hnone.
      subst cs. reflexivity.
Qed.

Lemma trace_labels_children (h : list string) (cs : list FileSystemNode) :
  (forall c, In c cs -> files_are_leaves c) ->
  map call_label (flat_map (fun c => addNodeToZip (W := TraceZip) c h []) cs)
  = map (fun m => (type m, name m)) (flat_map nodes cs).
Proof.
  induction cs as [|c cs IHcs]; intros Hcs; [reflexivity|].
  cbn [flat_map]. rewrite !map_app. f_equal.
  - apply trace_labels. apply Hcs. now left.
  - apply IHcs. intros z Hz. apply Hcs. now right.
Qed.

(** What [populateZip] records on [TraceZip]. *)
Lemma trace_populate (t : FileSystemNode) :
  populateZip (W := TraceZip) t
  = call_folder [] (name t)
    :: flat_map (fun c => addNodeToZip (W := TraceZip) c [name t] [])
                (children_or_empty t).
Proof.
  destruct t as [r i nm ty [cs|] e]; [|reflexivity].
  unfold populateZip. cbn [name children children_or_empty zip_folder zip_root
                            new_JSZip TraceZip app].
  rewrite (trace_fold [nm] cs); [reflexivity|].
  apply Forall_forall. intros c _. apply trace_append.
Qed.

Section AnyWriter.
Context {Zip Handle Blob Error : Type} {W : JSZip Zip Handle Blob Error}.

(** The walk reads names, kinds and children only. *)
Lemma addNodeToZip_forget (n1 : FileSystemNode) :
  forall n2, forget_expanded n1 = forget_expanded n2 ->
  forall (zipFolder : Handle) (zip : Zip),
    addNodeToZip n1 zipFolder zip = addNodeToZip n2 zipFolder zip.
Proof.
  induction n1 as [r i nm ty e | r i nm ty cs e IH] using node_ind';
    intros n2 Heq zipFolder zip;
    destruct (forget_expanded_inv _ _ Heq) as (Hnm & Hty & Hch);
    destruct n2 as [r' i' nm' ty' [cs'|] e']; cbn in Hnm, Hty, Hch;
    try contradiction; subst nm' ty'; destruct ty; cbn [addNodeToZip];
    try reflexivity.
  destruct (zip_folder zipFolder nm zip) as [newFolder zip1].
  clear zip Heq. revert cs' Hch zip1.
  induction IH as [|c cs Hc _ IHcs]; intros [|c' cs'] Hcs zip1;
    try discriminate; [reflexivity|].
  cbn in Hcs. injection Hcs as Hc' Hcs'. cbn [fold_left].
  rewrite (Hc c' Hc'). now apply IHcs.
Qed.

Lemma populateZip_forget (t1 t2 : FileSystemNode) :
  forget_expanded t1 = forget_expanded t2 -> populateZip t1 = populateZip t2.
Proof.
  intros Heq. destruct (forget_expanded_inv _ _ Heq) as (Hnm & _ & Hch).
  unfold populateZip. rewrite Hnm.
  destruct (zip_folder zip_root (name t2) new_JSZip) as [rootFolder zip1].
  destruct (children t1) as [cs|], (children t2) as [cs'|];
    try contradiction; [|reflexivity].
  revert cs' Hch zip1.
  induction cs as [|c cs IHcs]; intros [|c' cs'] Hcs zip1;
    try discriminate; [reflexivity|].
  cbn in Hcs. injection Hcs as Hc' Hcs'. cbn [fold_left].
  rewrite (addNodeToZip_forget c c' Hc'). now apply IHcs.
Qed.

(** C7, as the code has it.  When [generateAsync] fails, the builder
    logs the error and raises one alert, offers no download, and its
    call resolves: the caller [handleDownload] sees no failure, adds no
    report of its own, and only resets its loading flag. *)
Theorem archive_failure_is_alerted_not_rethrown
    (rootNode : FileSystemNode) (error : Error) (isLoading : bool) :
  generateAsync (populateZip rootNode) = inl error ->
  let report :=
    [console_error (Some "Failed to generate zip file:") (Some error);
     alert "An error occurred while creating the zip file."] in
  createZipFromStructure true rootNode = (resolved, report) /\
  handleDownload true (Some rootNode) isLoading = (report, false) /\
  List.length (filter is_alert report) = 1 /\
  filter is_download report = [].
Proof.
  intros Hfail report. unfold handleDownload, createZipFromStructure.
  cbn [negb]. rewrite Hfail. repeat split.
Qed.
End AnyWriter.

(** C8. The export does not depend on expansion state.  For any archive
    writer, two trees that are identical except in the expanded flags
    of their Directory nodes populate the same archive and settle the
    export the same way, with the same effects.  And the walk goes
    through all descendants, expanded or collapsed: on the writer that
    records its calls, both trees give the same calls, which are
    [folder(root name)] followed by exactly one call for each descendant
    of the root, in pre-order, a [folder] call for a Directory and a
    [file] call for a File, with the node's name (for trees of the data
    model, whose File nodes have no children). *)
Theorem archive_independent_of_expansion
    {Zip Handle Blob Error : Type} {W : JSZip Zip Handle Blob Error}
    (t1 t2 : FileSystemNode) (jszip_loaded : bool) :
  forget_expanded t1 = forget_expanded t2 ->
  populateZip t1 = populateZip t2 /\
  createZipFromStructure jszip_loaded t1 = createZipFromStructure jszip_loaded t2 /\
  (files_are_leaves t1 ->
   exists calls,
     populateZip (W := TraceZip) t1 = call_folder [] (name t1) :: calls /\
     populateZip (W := TraceZip) t2 = call_folder [] (name t1) :: calls /\
     map call_label calls = map (fun n => (type n, name n)) (descendants t1) /\
     List.length calls = List.length (descendants t1)).
Proof.
  intros Heq. pose proof (populateZip_forget t1 t2 Heq) as Hpop.
  split; [exact Hpop|]. split.
  - unfold createZipFromStructure. rewrite Hpop.
    now rewrite (proj1 (forget_expanded_inv _ _ Heq)).
  - intros Hleaves.
    assert (Hlab : map call_label
                     (flat_map (fun c => addNodeToZip (W := TraceZip) c [name t1] [])
                        (children_or_empty t1))
                   = map (fun n => (type n, name n)) (descendants t1)).
    { rewrite trace_labels_children.
      - destruct t1 as [r i nm ty [cs|] e]; reflexivity.
      - intros c Hc. eapply files_are_leaves_child; [exact Hleaves | exact Hc]. }
    eexists. split; [apply trace_populate|]. split; [|split; [exact Hlab|]].
    + rewrite <- (trace_populate t1). symmetry.
      apply (populateZip_forget (W := TraceZip) t1 t2 Heq).
    + rewrite <- (length_map call_label), Hlab. apply length_map.
Qed.

Lemma archive_independent_of_expansion_witness :
  let t2 :=
    mkNode 7 "root" "proj" folder
      (Some [mkNode 8 "root-1" "src" folder
               (Some [mkNode 9 "root-1-2" "a.txt" file None None]) None])
      (Some false) in
  populateZip (W := SpecZip) proj_tree = populateZip (W := SpecZip) t2 /\
  createZipFromStructure (W := SpecZip) true proj_tree
  = createZipFromStructure (W := SpecZip) true t2 /\
  exists calls,
    populateZip (W := TraceZip) proj_tree = call_folder [] (name proj_tree) :: calls /\
    populateZip (W := TraceZip) t2 = call_folder [] (name proj_tree) :: calls /\
    map call_label calls = map (fun n => (type n, name n)) (descendants proj_tree) /\
    List.length calls = List.length (descendants proj_tree).
Proof.
  cbv zeta.
  destruct (archive_independent_of_expansion (W := SpecZip) proj_tree
              (mkNode 7 "root" "proj" folder
                 (Some [mkNode 8 "root-1" "src" folder
                          (Some [mkNode 9 "root-1-2" "a.txt" file None None]) None])
                 (Some false)) true eq_refl) as (Hpop & Hrun & Hwalk).
  split; [exact Hpop|]. split; [exact Hrun|]. apply Hwalk.
  intros n Hn Hfile. cbn in Hn.
  destruct Hn as [<-|[<-|[<-|[]]]]; try discriminate Hfile; reflexivity.
Defined.

Lemma archive_failure_is_alerted_not_rethrown_witness :
  let report :=
    [console_error (Some "Failed to generate zip file:") (Some "generation failed");
     alert "An error occurred while creating the zip file."] in
  createZipFromStructure (W := FailingZip) true proj_tree = (resolved, report) /\
  handleDownload (W := FailingZip) true (Some proj_tree) true = (report, false) /\
  List.length (filter is_alert report) = 1 /\
  filter is_download report = [].
Proof.
  apply (archive_failure_is_alerted_not_rethrown (W := FailingZip)
           proj_tree "generation failed" true).
  reflexivity.
Defined.

(** The claim that the caller can observe the failure fails: with a
    writer whose generation fails, the builder's call on [proj_tree]
    resolves instead of rejecting, and [handleDownload] never reaches its
    own error report. *)
Lemma archive_failure_not_observable_by_caller :
  generateAsync (JSZip := FailingZip) (populateZip (W := FailingZip) proj_tree)
    = inl "generation failed" /\
  fst (createZipFromStructure (W := FailingZip) true proj_tree) = resolved /\
  (forall err, fst (createZipFromStructure (W := FailingZip) true proj_tree)
               <> rejected err) /\
  ~ In (alert "Failed to create zip file.")
       (fst (handleDownload (W := FailingZip) true (Some proj_tree) true)).
Proof.
  split; [reflexivity|]. split; [reflexivity|]. split.
  - intros err. vm_compute. discriminate.
  - vm_compute. intros [H|[H|[]]]; discriminate.
Qed.

(** * Further properties of the engine and of the code around it *)

(** ** Lifting facts about the rule to facts about the engine *)

Lemma mapM_In_inv {A B : Type} (f : A -> M B) (l : list A) :
  (forall x, In x l -> forall s, s <= snd (f x s)) ->
  forall s y, In y (fst (mapM f l s)) ->
  exists x s0, In x l /\ s <= s0 /\ y = fst (f x s0).
Proof.
  induction l as [|x l IH]; intros Hmono s y Hy; [destruct Hy|].
  rewrite mapM_cons in Hy. pose proof (Hmono x (or_introl eq_refl) s) as Hle.
  destruct (f x s) as [b s1] eqn:Ex. try rewrite Ex in Hle. cbn in Hle.
  specialize (IH (fun z Hz => Hmono z (or_intror Hz)) s1 y).
  destruct (mapM f l s1) as [ys s2]. cbn in Hy, IH.
  destruct Hy as [<-|Hy].
  - exists x, s. rewrite Ex. repeat split; auto. now left.
  - destruct (IH Hy) as (z & s0 & Hz & Hs0 & ->).
    exists z, s0. split; [now right|]. split; [lia | reflexivity].
Qed.

(** A property of single nodes that survives the engine's shallow copy
    holds of every node of the result as soon as the rule keeps it. *)
Lemma modifyTree_all_nodes (Q : FileSystemNode -> Prop) (logic : Logic) :
  (forall r r' i nm ty cs cs' e,
      Q (mkNode r i nm ty (Some cs) e) -> (cs = [] -> cs' = []) ->
      Q (mkNode r' i nm ty (Some cs') e)) ->
  (forall p s p', all_nodes Q p -> fst (logic p s) = Some p' -> all_nodes Q p') ->
  forall t s t',
    all_nodes Q t -> fst (modifyTree t logic s) = Some t' -> all_nodes Q t'.
Proof.
  intros Hcopy Hlogic.
  induction t as [r i nm ty e | r i nm ty cs e IH] using node_ind';
    intros s t' Hall Hrun.
  - rewrite modifyTree_leaf in Hrun. exact (Hlogic _ _ _ Hall Hrun).
  - rewrite modifyTree_children in Hrun.
    destruct (mapM (fun child => modifyTree child logic) cs s) as [mapped s1] eqn:Emap.
    assert (Hkids : forall c', In c' (filter_non_null mapped) -> all_nodes Q c').
    { intros c' Hc'. apply In_filter_non_null in Hc'.
      assert (Hgen : forall (l : list FileSystemNode) s0 m,
                 Forall (fun c => forall s t', all_nodes Q c ->
                           fst (modifyTree c logic s) = Some t' -> all_nodes Q t') l ->
                 (forall c, In c l -> all_nodes Q c) ->
                 In (Some m) (fst (mapM (fun child => modifyTree child logic) l s0)) ->
                 all_nodes Q m).
      { clear. induction l as [|c l IHl]; intros s0 m HF Hl Hin; [destruct Hin|].
        rewrite mapM_cons in Hin. inversion HF as [|? ? Hc HFl]; subst.
        destruct (modifyTree c logic s0) as [b s1] eqn:Ec.
        specialize (IHl s1 m HFl (fun z Hz => Hl z (or_intror Hz))).
        destruct (mapM (fun child => modifyTree child logic) l s1) as [ys s2].
        cbn in Hin, IHl. destruct Hin as [->|Hin]; [|now apply IHl].
        apply (Hc s0 m (Hl c (or_introl eq_refl))). now rewrite Ec. }
      apply (Hgen cs s c' IH); [|now rewrite Emap].
      intros c Hc n Hn. apply Hall. eapply nodes_child; [exact Hc | exact Hn]. }
    assert (Hempty : cs = [] -> filter_non_null mapped = []).
    { intros ->. cbn in Emap. unfold ret in Emap. now injection Emap as <- _. }
    assert (Hcopied : all_nodes Q (mkNode s1 i nm ty (Some (filter_non_null mapped)) e)).
    { intros n Hn. rewrite nodes_children in Hn. destruct Hn as [<-|Hn].
      - apply (Hcopy r s1 i nm ty cs _ e); [apply Hall, nodes_self | exact Hempty].
      - apply in_flat_map in Hn as (c' & Hc' & Hn). exact (Hkids c' Hc' n Hn). }
    destruct (childrenChanged (filter_non_null mapped) cs).
    + exact (Hlogic _ _ _ Hcopied Hrun).
    + exact (Hlogic _ _ _ Hall Hrun).
Qed.

(** The result of the engine lives below the new allocator as soon as
    the results of the rule do, from the allocator position [b] on. *)
Lemma modifyTree_allocated (logic : Logic) (b : loc) :
  well_behaved logic ->
  (forall p s p', b <= s -> allocated s p -> fst (logic p s) = Some p' ->
                  allocated (snd (logic p s)) p') ->
  forall t s t',
    b <= s ->
    allocated s t -> fst (modifyTree t logic s) = Some t' ->
    allocated (snd (modifyTree t logic s)) t'.
Proof.
  intros Hwb Hlogic.
  induction t as [r i nm ty e | r i nm ty cs e IH] using node_ind';
    intros s t' Hb Halloc Hrun.
  - rewrite modifyTree_leaf in *. now apply Hlogic.
  - rewrite modifyTree_children in *.
    assert (Hkids : forall s0, b <= s0 -> (forall c, In c cs -> allocated s0 c) ->
              s0 <= snd (mapM (fun child => modifyTree child logic) cs s0) /\
              forall c', In (Some c') (fst (mapM (fun child => modifyTree child logic) cs s0)) ->
                allocated (snd (mapM (fun child => modifyTree child logic) cs s0)) c').
    { clear Halloc Hrun Hb. induction IH as [|c cs Hc _ IHcs]; intros s0 Hb Hall.
      - split; [cbn; lia | intros c' []].
      - rewrite mapM_cons.
        pose proof (proj1 (modifyTree_same_or_fresh logic Hwb c s0)) as Hle.
        specialize (Hc s0).
        destruct (modifyTree c logic s0) as [m s1] eqn:Ec. cbn in Hle, Hc.
        destruct (IHcs s1) as [Hle2 Hrest]; [lia| |].
        { intros z Hz. eapply allocated_mono; [apply Hall; now right | exact Hle]. }
        destruct (mapM (fun child => modifyTree child logic) cs s1) as [ys s2].
        cbn in *. split; [lia|]. intros c' [E|Hin]; [|now apply Hrest].
        subst m. eapply allocated_mono; [|exact Hle2].
        apply Hc; [exact Hb | apply Hall; now left | reflexivity]. }
    destruct (Hkids s Hb) as [Hle Hres].
    { intros c Hc. eapply allocated_child; [exact Halloc | exact Hc]. }
    destruct (mapM (fun child => modifyTree child logic) cs s) as [mapped s1].
    cbn in Hle, Hres.
    destruct (childrenChanged (filter_non_null mapped) cs).
    + apply Hlogic; [lia | | exact Hrun].
      intros n Hn. rewrite nodes_children in Hn. destruct Hn as [<-|Hn]; [cbn; lia|].
      apply in_flat_map in Hn as (c' & Hc' & Hn).
      apply In_filter_non_null in Hc'. specialize (Hres c' Hc' n Hn). lia.
    + apply Hlogic; [lia | | exact Hrun].
      eapply allocated_mono; [exact Halloc | exact Hle].
Qed.

(** ** Edits that find nothing to edit *)

Lemma toggle_only_files (nodeId : string) (t : FileSystemNode) :
  (forall n, In n (nodes t) -> id n = nodeId -> type n = file) ->
  forall s, modifyTree t (toggle_logic nodeId) s = (Some t, s).
Proof.
  intros Hfiles. apply modifyTree_unchanged. intros n Hn s. unfold toggle_logic.
  destruct (String.eqb_spec (id n) nodeId) as [E|_]; [|reflexivity].
  now rewrite (Hfiles n Hn E).
Qed.

Lemma add_only_files (parentId : string) (new t : FileSystemNode) :
  (forall n, In n (nodes t) -> id n = parentId -> type n = file) ->
  forall s, modifyTree t (add_logic parentId new) s = (Some t, s).
Proof.
  intros Hfiles. apply modifyTree_unchanged. intros n Hn s. unfold add_logic.
  destruct (String.eqb_spec (id n) parentId) as [E|_]; [|reflexivity].
  now rewrite (Hfiles n Hn E).
Qed.

Lemma absent_id_only_files (nodeId : string) (t : FileSystemNode) :
  ~ In nodeId (ids t) ->
  forall n, In n (nodes t) -> id n = nodeId -> type n = file.
Proof. intros Hno n Hn E. exfalso. apply Hno. subst. now apply id_in_ids. Qed.

(** X1. An edit aimed at an id that no node carries changes nothing:
    rename, toggle and delete return the very same tree object and
    allocate nothing; add returns the very same tree object, having
    allocated only the node it then drops. *)
Theorem edits_on_unknown_id_change_nothing
    (t : FileSystemNode) (nodeId : string) (s : loc) :
  ~ In nodeId (ids t) ->
  (forall newName, handleRenameNode nodeId newName (Some t) s = (Some t, s)) /\
  handleToggleExpand nodeId (Some t) s = (Some t, s) /\
  handleDeleteNode nodeId (Some t) s = (Some t, s) /\
  (forall now rnd nm ty,
      handleAddNode now rnd nodeId nm ty (Some t) s = (Some t, S s)).
Proof.
  intros Hno. split; [|split; [|split]].
  - intros newName. exact (rename_off_target nodeId newName t Hno s).
  - exact (toggle_only_files nodeId t (absent_id_only_files nodeId t Hno) s).
  - unfold handleDeleteNode. destruct (String.eqb nodeId "root"); [reflexivity|].
    exact (delete_absent nodeId t Hno s).
  - intros now rnd nm ty. unfold handleAddNode, bind, alloc, updateTree.
    exact (add_only_files nodeId _ t (absent_id_only_files nodeId t Hno) (S s)).
Qed.

Lemma edits_on_unknown_id_change_nothing_witness :
  (forall newName,
      handleRenameNode "elsewhere" newName (Some sample_tree) 4 = (Some sample_tree, 4)) /\
  handleToggleExpand "elsewhere" (Some sample_tree) 4 = (Some sample_tree, 4) /\
  handleDeleteNode "elsewhere" (Some sample_tree) 4 = (Some sample_tree, 4) /\
  (forall now rnd nm ty,
      handleAddNode now rnd "elsewhere" nm ty (Some sample_tree) 4
      = (Some sample_tree, 5)).
Proof.
  apply (edits_on_unknown_id_change_nothing sample_tree "elsewhere" 4).
  cbn. intros [H|[H|[H|[H|[]]]]]; discriminate H.
Defined.

(** X2. Files take no children and have nothing to toggle: when every
    node carrying the target id is a file, add and toggle-expanded
    return the very same tree object. *)
Theorem add_and_toggle_ignore_files
    (t : FileSystemNode) (nodeId : string) (s : loc) :
  (forall n, In n (nodes t) -> id n = nodeId -> type n = file) ->
  handleToggleExpand nodeId (Some t) s = (Some t, s) /\
  (forall now rnd nm ty,
      handleAddNode now rnd nodeId nm ty (Some t) s = (Some t, S s)).
Proof.
  intros Hfiles. split.
  - exact (toggle_only_files nodeId t Hfiles s).
  - intros now rnd nm ty. unfold handleAddNode, bind, alloc, updateTree.
    exact (add_only_files nodeId _ t Hfiles (S s)).
Qed.

Lemma add_and_toggle_ignore_files_witness :
  handleToggleExpand (id sample_a) (Some sample_tree) 4 = (Some sample_tree, 4) /\
  (forall now rnd nm ty,
      handleAddNode now rnd (id sample_a) nm ty (Some sample_tree) 4
      = (Some sample_tree, 5)).
Proof.
  apply (add_and_toggle_ignore_files sample_tree (id sample_a) 4).
  intros n Hn. cbn in Hn.
  destruct Hn as [<-|[<-|[<-|[<-|[]]]]]; cbn; intros H;
    reflexivity || discriminate H.
Defined.

(** ** More on delete *)

(** X3. When a delete empties the tree.  The tree state becomes absent
    exactly when the target is the id of the root and that id is not the
    sentinel ['root']: the guard protects the root by its id, not by its
    position. *)
Theorem delete_empties_tree_iff_unguarded_root
    (t : FileSystemNode) (nodeId : string) (s : loc) :
  fst (handleDeleteNode nodeId (Some t) s) = None <->
  nodeId = id t /\ nodeId <> ROOT_ID.
Proof.
  unfold handleDeleteNode, ROOT_ID.
  destruct (String.eqb_spec nodeId "root") as [E|N].
  - cbn. split; [discriminate | intros [_ H]; contradiction].
  - unfold updateTree.
    destruct (modifyTree_fields (delete_logic nodeId) t s) as (p & s2 & -> & Hp).
    assert (Hid : id p = id t) by (unfold fields in Hp; now injection Hp).
    unfold delete_logic, ret. cbn. rewrite Hid.
    destruct (String.eqb_spec (id t) nodeId) as [E|N'].
    + split; auto.
    + split; [discriminate | intros [H _]; congruence].
Qed.

(** Pruning by id, on any tree: the root goes when it carries the id;
    otherwise no node carrying the id is left, and no id is added. *)
Lemma delete_purges (x : string) (t : FileSystemNode) :
  forall s, allocated s t ->
  match fst (modifyTree t (delete_logic x) s) with
  | None => id t = x
  | Some t' => id t <> x /\ ~ In x (ids t') /\ incl (ids t') (ids t)
  end.
Proof.
  induction t as [r i nm ty e | r i nm ty cs e IH] using node_ind'; intros s Halloc.
  - rewrite modifyTree_leaf. unfold delete_logic, ret. cbn.
    destruct (String.eqb_spec i x) as [E|N]; [exact E|].
    split; [exact N|]. split; [|apply incl_refl].
    cbn. intros [H|[]]. contradiction.
  - destruct (mapM (fun child => modifyTree child (delete_logic x)) cs s)
      as [mapped s1] eqn:Emap.
    destruct (modifyTree_rule_input (delete_logic x) r i nm ty cs e s
                (delete_logic_well_behaved x) Halloc _ _ Emap)
      as (_ & r' & s2 & -> & _).
    unfold delete_logic, ret. cbn [fst id].
    destruct (String.eqb_spec i x) as [E|N]; [exact E|].
    split; [exact N|].
    assert (Hkids : forall c', In c' (filter_non_null mapped) ->
              ~ In x (ids c') /\ incl (ids c') (flat_map ids cs)).
    { intros c' Hc'. apply In_filter_non_null in Hc'.
      assert (Hin : In (Some c') (fst (mapM (fun child => modifyTree child (delete_logic x)) cs s)))
        by now rewrite Emap.
      apply mapM_In_inv in Hin as (c & s0 & Hc & Hs0 & Hres).
      2:{ intros z _ s0.
          exact (proj1 (modifyTree_same_or_fresh _ (delete_logic_well_behaved x) z s0)). }
      rewrite Forall_forall in IH. specialize (IH c Hc s0).
      rewrite <- Hres in IH. destruct IH as (_ & Hno & Hincl).
      { eapply allocated_mono; [|exact Hs0].
        eapply allocated_child; [exact Halloc | exact Hc]. }
      split; [exact Hno|]. intros y Hy. apply in_flat_map. exists c.
      split; [exact Hc | now apply Hincl]. }
    rewrite !ids_children. split.
    + intros [H|H]; [contradiction|].
      apply in_flat_map in H as (c' & Hc' & Hx). exact (proj1 (Hkids c' Hc') Hx).
    + intros y [<-|Hy]; [now left | right].
      apply in_flat_map in Hy as (c' & Hc' & Hy). exact (proj2 (Hkids c' Hc') y Hy).
Qed.

(** X4. Delete purges the id and is idempotent.  On any tree, ids
    repeated or not, a delete whose target is neither the sentinel nor
    the root's id leaves a tree in which no node carries the target id
    and every id was already there; deleting the same id again returns
    that very tree object. *)
Theorem delete_purges_id_and_is_idempotent
    (t : FileSystemNode) (nodeId : string) (s : loc) :
  allocated s t ->
  nodeId <> ROOT_ID ->
  nodeId <> id t ->
  exists t' s',
    handleDeleteNode nodeId (Some t) s = (Some t', s') /\
    ~ In nodeId (ids t') /\
    incl (ids t') (ids t) /\
    handleDeleteNode nodeId (Some t') s' = (Some t', s').
Proof.
  intros Halloc Hroot Hne. unfold handleDeleteNode, ROOT_ID in *.
  destruct (String.eqb_spec nodeId "root") as [E|_]; [contradiction|].
  unfold updateTree. pose proof (delete_purges nodeId t s Halloc) as H.
  destruct (modifyTree t (delete_logic nodeId) s) as [[t'|] s'] eqn:Erun; cbn in H.
  - destruct H as (_ & Hno & Hincl). exists t', s'.
    split; [reflexivity|]. split; [exact Hno|]. split; [exact Hincl|].
    exact (delete_absent nodeId t' Hno s').
  - congruence.
Qed.

Lemma delete_purges_id_and_is_idempotent_witness :
  exists t' s',
    handleDeleteNode (id sample_b) (Some sample_tree) 4 = (Some t', s') /\
    ~ In (id sample_b) (ids t') /\
    incl (ids t') (ids sample_tree) /\
    handleDeleteNode (id sample_b) (Some t') s' = (Some t', s').
Proof.
  apply (delete_purges_id_and_is_idempotent sample_tree (id sample_b) 4).
  - exact sample_tree_allocated.
  - discriminate.
  - discriminate.
Defined.

(** ** More on toggle, rename and the bulk buttons *)

(** X5. Toggle flips, and toggling twice normalises.  Toggle-expanded on
    an id keeps the shape of the tree and every id, name and kind; the
    folders carrying the id get the negation of the truthiness of their
    flag, and after a second toggle they carry that truthiness itself,
    so a flag that was a boolean is restored and an absent flag has
    become [false]; every other node keeps its flag. *)
Theorem toggle_flips_and_twice_normalises
    (t : FileSystemNode) (nodeId : string) (s : loc) :
  allocated s t ->
  exists t1 s1 t2 s2,
    handleToggleExpand nodeId (Some t) s = (Some t1, s1) /\
    handleToggleExpand nodeId (Some t1) s1 = (Some t2, s2) /\
    List.length (nodes t1) = List.length (nodes t) /\
    List.length (nodes t2) = List.length (nodes t) /\
    forall k n,
      nth_error (nodes t) k = Some n ->
      exists n1 n2,
        nth_error (nodes t1) k = Some n1 /\ nth_error (nodes t2) k = Some n2 /\
        (id n1, name n1, type n1) = (id n, name n, type n) /\
        (id n2, name n2, type n2) = (id n, name n, type n) /\
        isExpanded n1 =
          (if String.eqb (id n) nodeId && NodeType_eqb (type n) folder
           then Some (negb (truthy (isExpanded n))) else isExpanded n) /\
        isExpanded n2 =
          (if String.eqb (id n) nodeId && NodeType_eqb (type n) folder
           then Some (truthy (isExpanded n)) else isExpanded n).
Proof.
  intros Halloc.
  unfold handleToggleExpand, updateTree. rewrite toggle_logic_is_field_logic.
  set (test := fun (i : string) (ty : NodeType) =>
                 String.eqb i nodeId && NodeType_eqb ty folder).
  set (flip := fun e : option bool => Some (negb (truthy e))).
  destruct (field_logic_map test (fun nm => nm) flip t s Halloc)
    as (t1 & s1 & E1 & _ & Hal1 & Hm1).
  destruct (field_logic_map test (fun nm => nm) flip t1 s1 Hal1)
    as (t2 & s2 & E2 & _ & _ & Hm2).
  exists t1, s1, t2, s2. split; [exact E1|]. split; [exact E2|].
  assert (Hl1 : List.length (nodes t1) = List.length (nodes t)).
  { apply (f_equal (@List.length _)) in Hm1. now rewrite !length_map in Hm1. }
  assert (Hl2 : List.length (nodes t2) = List.length (nodes t)).
  { apply (f_equal (@List.length _)) in Hm2. rewrite !length_map in Hm2. congruence. }
  split; [exact Hl1|]. split; [exact Hl2|].
  intros k n Hk.
  assert (Hk1 : nth_error (map fields (nodes t1)) k
                = Some (rewrite_fields test (fun nm => nm) flip (fields n))).
  { rewrite Hm1, !nth_error_map, Hk. reflexivity. }
  rewrite nth_error_map in Hk1.
  destruct (nth_error (nodes t1) k) as [n1|] eqn:En1; [|discriminate].
  cbn in Hk1. injection Hk1 as Hf1.
  assert (Hk2 : nth_error (map fields (nodes t2)) k
                = Some (rewrite_fields test (fun nm => nm) flip (fields n1))).
  { rewrite Hm2, !nth_error_map, En1. reflexivity. }
  rewrite nth_error_map in Hk2.
  destruct (nth_error (nodes t2) k) as [n2|] eqn:En2; [|discriminate].
  cbn in Hk2. injection Hk2 as Hf2.
  exists n1, n2. split; [reflexivity|]. split; [reflexivity|].
  unfold rewrite_fields, fields, test, flip in Hf1, Hf2.
  destruct (String.eqb (id n) nodeId && NodeType_eqb (type n) folder) eqn:Hhit.
  - injection Hf1 as Hi1 Hn1 Ht1 He1. rewrite Hi1, Ht1, Hhit in Hf2.
    injection Hf2 as Hi2 Hn2 Ht2 He2.
    repeat split; try congruence.
    rewrite He2, He1. cbn. destruct (truthy (isExpanded n)); reflexivity.
  - injection Hf1 as Hi1 Hn1 Ht1 He1. rewrite Hi1, Ht1, Hhit in Hf2.
    injection Hf2 as Hi2 Hn2 Ht2 He2.
    repeat split; congruence.
Qed.

Lemma toggle_flips_and_twice_normalises_witness :
  exists t1 s1 t2 s2,
    handleToggleExpand "root" (Some sample_tree) 4 = (Some t1, s1) /\
    handleToggleExpand "root" (Some t1) s1 = (Some t2, s2) /\
    List.length (nodes t1) = List.length (nodes sample_tree) /\
    List.length (nodes t2) = List.length (nodes sample_tree) /\
    forall k n,
      nth_error (nodes sample_tree) k = Some n ->
      exists n1 n2,
        nth_error (nodes t1) k = Some n1 /\ nth_error (nodes t2) k = Some n2 /\
        (id n1, name n1, type n1) = (id n, name n, type n) /\
        (id n2, name n2, type n2) = (id n, name n, type n) /\
        isExpanded n1 =
          (if String.eqb (id n) "root" && NodeType_eqb (type n) folder
           then Some (negb (truthy (isExpanded n))) else isExpanded n) /\
        isExpanded n2 =
          (if String.eqb (id n) "root" && NodeType_eqb (type n) folder
           then Some (truthy (isExpanded n)) else isExpanded n).
Proof.
  apply (toggle_flips_and_twice_normalises sample_tree "root" 4).
  exact sample_tree_allocated.
Defined.

(** The ids, names and kinds in pre-order do not see addresses or folder
    flags. *)
Lemma forget_expanded_labels (t : FileSystemNode) :
  map (fun n => (id n, name n, type n)) (nodes (forget_expanded t))
  = map (fun n => (id n, name n, type n)) (nodes t).
Proof.
  induction t as [r i nm ty e | r i nm ty cs e IH] using node_ind';
    [reflexivity|].
  cbn [forget_expanded]. rewrite !nodes_children. cbn [map id name type]. f_equal.
  induction IH as [|c cs Hc _ IHcs]; [reflexivity|].
  cbn [map flat_map]. now rewrite !map_app, Hc, IHcs.
Qed.

Lemma field_logic_labels (test : string -> NodeType -> bool)
    (newName : string -> string) (newExpanded : option bool -> option bool)
    (l l' : list FileSystemNode) :
  map fields l' = map (rewrite_fields test newName newExpanded) (map fields l) ->
  map id l' = map id l /\ map type l' = map type l.
Proof.
  revert l'. induction l as [|n l IH]; intros [|n' l'] H; try discriminate;
    [split; reflexivity|].
  cbn in H. injection H as Hn Hl. destruct (IH l' Hl) as [Hi Ht].
  unfold rewrite_fields, fields in Hn.
  destruct (test (id n) (type n)); injection Hn as E1 _ E3 _;
    cbn; split; congruence.
Qed.

(** X6. Ids and kinds are immutable under rename, toggle and the bulk
    buttons: each of them returns a tree with the same ids and the same
    kinds, in the same pre-order (so the same number of nodes). *)
Theorem edits_in_place_keep_ids_and_kinds (t : FileSystemNode) (s : loc) :
  allocated s t ->
  (forall nodeId newName,
      exists t' s', handleRenameNode nodeId newName (Some t) s = (Some t', s') /\
                    ids t' = ids t /\ map type (nodes t') = map type (nodes t)) /\
  (forall nodeId,
      exists t' s', handleToggleExpand nodeId (Some t) s = (Some t', s') /\
                    ids t' = ids t /\ map type (nodes t') = map type (nodes t)) /\
  (forall v,
      exists t' s', setAllExpanded v (Some t) s = (Some t', s') /\
                    ids t' = ids t /\ map type (nodes t') = map type (nodes t)).
Proof.
  intros Halloc. split; [|split].
  - intros nodeId newName. unfold handleRenameNode, updateTree.
    rewrite rename_logic_is_field_logic.
    destruct (field_logic_map (fun i _ => String.eqb i nodeId) (fun _ => newName)
                (fun e => e) t s Halloc) as (t' & s' & E & _ & _ & Hm).
    exists t', s'. split; [exact E|]. exact (field_logic_labels _ _ _ _ _ Hm).
  - intros nodeId. unfold handleToggleExpand, updateTree.
    rewrite toggle_logic_is_field_logic.
    destruct (field_logic_map
                (fun i ty => String.eqb i nodeId && NodeType_eqb ty folder)
                (fun nm => nm) (fun e => Some (negb (truthy e))) t s Halloc)
      as (t' & s' & E & _ & _ & Hm).
    exists t', s'. split; [exact E|]. exact (field_logic_labels _ _ _ _ _ Hm).
  - intros v. destruct (recursiveSet_spec v t s) as (t' & s' & E & Hf & _).
    exists t', s'. unfold setAllExpanded, bind, ret. rewrite E.
    split; [reflexivity|].
    pose proof (forget_expanded_labels t') as H1.
    rewrite Hf, forget_expanded_labels in H1.
    split.
    + unfold ids. apply (f_equal (map (fun x => fst (fst x)))) in H1.
      rewrite !map_map in H1. cbn in H1. now symmetry.
    + apply (f_equal (map snd)) in H1. rewrite !map_map in H1. cbn in H1.
      now symmetry.
Qed.

Lemma edits_in_place_keep_ids_and_kinds_witness :
  (forall nodeId newName,
      exists t' s', handleRenameNode nodeId newName (Some sample_tree) 4 = (Some t', s') /\
                    ids t' = ids sample_tree /\
                    map type (nodes t') = map type (nodes sample_tree)) /\
  (forall nodeId,
      exists t' s', handleToggleExpand nodeId (Some sample_tree) 4 = (Some t', s') /\
                    ids t' = ids sample_tree /\
                    map type (nodes t') = map type (nodes sample_tree)) /\
  (forall v,
      exists t' s', setAllExpanded v (Some sample_tree) 4 = (Some t', s') /\
                    ids t' = ids sample_tree /\
                    map type (nodes t') = map type (nodes sample_tree)).
Proof.
  apply (edits_in_place_keep_ids_and_kinds sample_tree 4).
  exact sample_tree_allocated.
Defined.

(** ** Unique ids *)

Lemma NoDup_insert {A : Type} (x : A) (pre post : list A) :
  NoDup (pre ++ post) -> ~ In x (pre ++ post) -> NoDup (pre ++ x :: post).
Proof.
  induction pre as [|y pre IH]; cbn; intros Hnd Hx.
  - now constructor.
  - inversion Hnd as [|? ? Hy Hnd']; subst. constructor.
    + intros Hin. apply in_app_or in Hin as [Hin|[E|Hin]].
      * apply Hy. apply in_or_app. now left.
      * subst. apply Hx. now left.
      * apply Hy. apply in_or_app. now right.
    + apply IH; [exact Hnd' | intros Hin; apply Hx; now right].
Qed.

(** X7. Delete and add keep ids unique.  On a tree with unique ids,
    whatever a delete returns has unique ids; and so has whatever an add
    returns, provided the id generated for the new node does not occur
    in the tree. *)
Theorem delete_and_add_keep_ids_unique (t : FileSystemNode) (s : loc) :
  unique_ids t ->
  allocated s t ->
  (forall nodeId t' s',
      handleDeleteNode nodeId (Some t) s = (Some t', s') -> unique_ids t') /\
  (forall now rnd parentId nm ty t' s',
      ~ In (new_node_id now rnd parentId) (ids t) ->
      handleAddNode now rnd parentId nm ty (Some t) s = (Some t', s') ->
      unique_ids t').
Proof.
  intros Huniq Halloc. split.
  - intros nodeId t' s' Hrun. unfold handleDeleteNode in Hrun.
    destruct (String.eqb nodeId "root").
    { unfold ret in Hrun. injection Hrun as <- _. exact Huniq. }
    unfold updateTree in Hrun.
    destruct (in_dec string_dec nodeId (ids t)) as [Hin|Hno].
    + unfold ids in Hin. apply in_map_iff in Hin as (d & Hid & Hd).
      rewrite nodes_cons in Hd. destruct Hd as [<-|Hd].
      * pose proof (delete_at nodeId t s Hid) as Hnone.
        rewrite Hrun in Hnone. discriminate.
      * destruct (delete_below t d s Huniq Hd Halloc)
          as (t'' & s'' & E & _ & _ & Hids & _).
        rewrite Hid, Hrun in E. injection E as -> ->.
        unfold unique_ids. rewrite Hids. now apply NoDup_filter.
    + rewrite (delete_absent nodeId t Hno s) in Hrun.
      injection Hrun as <- _. exact Huniq.
  - intros now rnd parentId nm ty t' s' Hfresh Hrun.
    unfold handleAddNode, bind, alloc, updateTree in Hrun.
    set (new := new_node_data s now rnd parentId nm ty) in *.
    destruct (existsb (fun n => String.eqb (id n) parentId && NodeType_eqb (type n) folder)
                      (nodes t)) eqn:Ex.
    + apply existsb_exists in Ex as (d & Hd & Hhit).
      apply andb_true_iff in Hhit as [Hid Hty]. apply String.eqb_eq in Hid.
      assert (Hfolder : type d = folder) by (destruct (type d); [reflexivity | discriminate]).
      assert (Hnew : children_or_empty new = []) by (destruct ty; reflexivity).
      destruct (add_below new t d (S s) Hnew Huniq Hd Hfolder
                  (allocated_mono _ _ _ Halloc (Nat.le_succ_diag_r s)))
        as (t'' & d' & s'' & E & _ & _ & _ & _ & _ & pre & post & Hpre & Hpost).
      rewrite Hid, Hrun in E. injection E as -> ->.
      unfold unique_ids in *. rewrite Hpost. rewrite Hpre in Huniq, Hfresh.
      apply NoDup_insert; [exact Huniq | exact Hfresh].
    + rewrite add_only_files in Hrun.
      * injection Hrun as <- _. exact Huniq.
      * intros n Hn Hid. destruct (type n) eqn:Hty; [|reflexivity].
        exfalso. apply not_true_iff_false in Ex. apply Ex.
        apply existsb_exists. exists n. split; [exact Hn|].
        rewrite Hid, Hty, String.eqb_refl. reflexivity.
Qed.

Lemma delete_and_add_keep_ids_unique_witness :
  (forall nodeId t' s',
      handleDeleteNode nodeId (Some sample_tree) 4 = (Some t', s') -> unique_ids t') /\
  (forall now rnd parentId nm ty t' s',
      ~ In (new_node_id now rnd parentId) (ids sample_tree) ->
      handleAddNode now rnd parentId nm ty (Some sample_tree) 4 = (Some t', s') ->
      unique_ids t').
Proof.
  apply (delete_and_add_keep_ids_unique sample_tree 4).
  - exact sample_tree_unique_ids.
  - exact sample_tree_allocated.
Defined.

(** ** What every tree built in the editor satisfies *)

Lemma descendants_same_children (a b : FileSystemNode) :
  children a = children b -> descendants a = descendants b.
Proof.
  destruct a as [r1 i1 n1 t1 c1 e1], b as [r2 i2 n2 t2 c2 e2]. cbn.
  now intros ->.
Qed.

Lemma node_ok_copy r r' i nm ty cs cs' e :
  node_ok (mkNode r i nm ty (Some cs) e) -> (cs = [] -> cs' = []) ->
  node_ok (mkNode r' i nm ty (Some cs') e).
Proof.
  unfold node_ok. cbn. intros [Hleaf Hname] Hempty. split; [|exact Hname].
  intros Hty. apply Hempty. now apply Hleaf.
Qed.

Lemma modifyTree_root_fields (logic : Logic) :
  (forall p s p', fst (logic p s) = Some p' -> id p' = id p /\ type p' = type p) ->
  forall t s t',
    fst (modifyTree t logic s) = Some t' -> id t' = id t /\ type t' = type t.
Proof.
  intros Hlogic t s t' Hrun.
  destruct (modifyTree_fields logic t s) as (p & s2 & E & Hp).
  rewrite E in Hrun. destruct (Hlogic p s2 t' Hrun) as [Hi Ht].
  unfold fields in Hp. injection Hp as Hpi _ Hpt _. split; congruence.
Qed.

(** A rule that keeps the root's id and kind, the node invariant and the
    allocation invariant makes [updateTree] keep the editor's invariant. *)
Lemma updateTree_keeps_invariant (logic : Logic) (t : option FileSystemNode) (s : loc) :
  well_behaved logic ->
  (forall p s0 p', fst (logic p s0) = Some p' -> id p' = id p /\ type p' = type p) ->
  (forall p s0 p', all_nodes node_ok p -> fst (logic p s0) = Some p' ->
                   all_nodes node_ok p') ->
  (forall p s0 p', s <= s0 -> allocated s0 p -> fst (logic p s0) = Some p' ->
                   allocated (snd (logic p s0)) p') ->
  editor_invariant (t, s) -> editor_invariant (updateTree logic t s).
Proof.
  intros Hwb Hroot Hok Halloc. destruct t as [t|]; [|intros _; exact I].
  unfold editor_invariant, updateTree. cbn [fst snd].
  intros (Hid & Hty & Hall & Hal).
  destruct (fst (modifyTree t logic s)) as [t'|] eqn:Erun; [|exact I].
  destruct (modifyTree_root_fields logic Hroot t s t' Erun) as [Hi Ht].
  split; [unfold root_is_sentinel in *; congruence|].
  split; [congruence|]. split.
  - exact (modifyTree_all_nodes node_ok logic node_ok_copy Hok t s t' Hall Erun).
  - exact (modifyTree_allocated logic s Hwb Halloc t s t' (le_n s) Hal Erun).
Qed.

Lemma delete_keeps_invariant (nodeId : string) (t : option FileSystemNode) (s : loc) :
  editor_invariant (t, s) -> editor_invariant (handleDeleteNode nodeId t s).
Proof.
  unfold handleDeleteNode. destruct (String.eqb nodeId "root"); [auto|].
  apply updateTree_keeps_invariant.
  - apply delete_logic_well_behaved.
  - intros p s0 p'. unfold delete_logic, ret. cbn.
    destruct (String.eqb (id p) nodeId); [discriminate|]. now intros [= <-].
  - intros p s0 p' Hp. unfold delete_logic, ret. cbn.
    destruct (String.eqb (id p) nodeId); [discriminate|]. now intros [= <-].
  - intros p s0 p' _ Hp. unfold delete_logic, ret. cbn.
    destruct (String.eqb (id p) nodeId); [discriminate|]. now intros [= <-].
Qed.

Lemma field_logic_keeps_invariant (test : string -> NodeType -> bool)
    (newName : string -> string) (newExpanded : option bool -> option bool)
    (t : option FileSystemNode) (s : loc) :
  (forall nm, trim nm <> EmptyString -> trim (newName nm) <> EmptyString) ->
  editor_invariant (t, s) ->
  editor_invariant (updateTree (field_logic test newName newExpanded) t s).
Proof.
  intros Hname. apply updateTree_keeps_invariant.
  - apply field_logic_well_behaved.
  - intros p s0 p'. unfold field_logic, bind, alloc, ret.
    destruct (test (id p) (type p)); cbn; intros [= <-]; auto.
  - intros p s0 p' Hp. unfold field_logic, bind, alloc, ret.
    destruct (test (id p) (type p)); cbn; intros [= <-]; [|exact Hp].
    intros n Hn. rewrite nodes_cons in Hn. destruct Hn as [<-|Hn].
    + destruct (Hp p (nodes_self p)) as [Hleaf Hnm]. split; cbn.
      * exact Hleaf.
      * now apply Hname.
    + apply Hp. rewrite nodes_cons. right.
      now rewrite (descendants_same_children p
                     (mkNode s0 (id p) (newName (name p)) (type p) (children p)
                             (newExpanded (isExpanded p)))).
  - intros p s0 p' _ Hp. unfold field_logic, bind, alloc, ret.
    destruct (test (id p) (type p)); cbn; intros [= <-]; [|exact Hp].
    intros n Hn. rewrite nodes_cons in Hn. destruct Hn as [<-|Hn]; [cbn; lia|].
    assert (ref n < s0); [|lia]. apply Hp. rewrite nodes_cons. right.
    now rewrite (descendants_same_children p
                   (mkNode s0 (id p) (newName (name p)) (type p) (children p)
                           (newExpanded (isExpanded p)))).
Qed.

Lemma add_keeps_invariant (now rnd parentId nm : string) (ty : NodeType)
    (t : option FileSystemNode) (s : loc) :
  trim nm <> EmptyString ->
  editor_invariant (t, s) ->
  editor_invariant (handleAddNode now rnd parentId nm ty t s).
Proof.
  intros Hnm Hinv. unfold handleAddNode, bind, alloc.
  set (new := new_node_data s now rnd parentId nm ty).
  assert (Hnodes : flat_map nodes [new] = [new]) by (destruct ty; reflexivity).
  assert (Hnew_ok : node_ok new) by (destruct ty; split; cbn; auto; discriminate).
  assert (Hnew_ref : ref new = s) by reflexivity.
  clearbody new.
  apply updateTree_keeps_invariant.
  - apply add_logic_well_behaved.
  - intros p s0 p'. unfold add_logic, bind, alloc, ret.
    destruct (String.eqb (id p) parentId && NodeType_eqb (type p) folder);
      cbn; intros [= <-]; auto.
  - intros p s0 p' Hp. unfold add_logic, bind, alloc, ret.
    destruct (String.eqb (id p) parentId && NodeType_eqb (type p) folder) eqn:Hhit;
      cbn; intros [= <-]; [|exact Hp].
    apply andb_true_iff in Hhit as [_ Hty].
    intros n Hn. rewrite nodes_children in Hn. destruct Hn as [<-|Hn].
    + split; cbn.
      * intros E. rewrite E in Hty. discriminate.
      * exact (proj2 (Hp p (nodes_self p))).
    + rewrite flat_map_app, Hnodes in Hn. apply in_app_or in Hn as [Hn|[<-|[]]].
      * apply in_flat_map in Hn as (c & Hc & Hn). apply Hp.
        exact (nodes_child p c n Hc Hn).
      * exact Hnew_ok.
  - intros p s0 p' Hs0 Hp. unfold add_logic, bind, alloc, ret.
    destruct (String.eqb (id p) parentId && NodeType_eqb (type p) folder);
      cbn; intros [= <-]; [|exact Hp].
    intros n Hn. rewrite nodes_children in Hn. destruct Hn as [<-|Hn]; [cbn; lia|].
    rewrite flat_map_app, Hnodes in Hn. apply in_app_or in Hn as [Hn|[<-|[]]].
    + apply in_flat_map in Hn as (c & Hc & Hn).
      assert (ref n < s0); [|lia]. apply Hp. exact (nodes_child p c n Hc Hn).
    + lia.
  - destruct t as [t|]; [|exact I].
    destruct Hinv as (Hi & Ht & Hall & Hal).
    split; [exact Hi|]. split; [exact Ht|]. split; [exact Hall|].
    eapply allocated_mono; [exact Hal | cbn; lia].
Qed.

(** [recursiveSet] allocates the copy of the node it is given first, and
    everything it builds lies between the old and the new allocator. *)
Lemma recursiveSet_refs (v : bool) (t : FileSystemNode) :
  forall s,
    s < snd (recursiveSet v t s) /\
    ref (fst (recursiveSet v t s)) = s /\
    (allocated s t -> allocated (snd (recursiveSet v t s)) (fst (recursiveSet v t s))) /\
    (files_are_leaves t ->
     forall n, In n (nodes (fst (recursiveSet v t s))) -> s <= ref n).
Proof.
  induction t as [r i nm ty e | r i nm ty cs e IH] using node_ind'; intros s.
  - destruct ty; cbn; (split; [lia|]); (split; [reflexivity|]);
      split; intros _ n [<-|[]]; cbn; lia.
  - destruct ty.
    + assert (Hcs : forall s0,
                s0 <= snd (mapM (recursiveSet v) cs s0) /\
                ((forall c, In c cs -> allocated s0 c) ->
                 forall n, In n (flat_map nodes (fst (mapM (recursiveSet v) cs s0))) ->
                           ref n < snd (mapM (recursiveSet v) cs s0)) /\
                ((forall c, In c cs -> files_are_leaves c) ->
                 forall n, In n (flat_map nodes (fst (mapM (recursiveSet v) cs s0))) ->
                           s0 <= ref n)).
      { induction IH as [|c cs Hc _ IHcs]; intros s0.
        - cbn. split; [lia|]. split; intros _ n [].
        - rewrite mapM_cons. destruct (Hc s0) as (Hlt & _ & Hal & Hfr).
          destruct (recursiveSet v c s0) as [c' s1]. cbn in Hlt, Hal, Hfr.
          destruct (IHcs s1) as (Hle & Hal2 & Hfr2).
          destruct (mapM (recursiveSet v) cs s1) as [cs' s2]. cbn in *.
          split; [lia|]. split.
          + intros Hall n Hn. apply in_app_or in Hn as [Hn|Hn].
            * assert (ref n < s1); [|lia]. apply Hal; [|exact Hn].
              apply Hall. now left.
            * apply Hal2; [|exact Hn]. intros z Hz.
              eapply allocated_mono; [apply Hall; now right | lia].
          + intros Hall n Hn. apply in_app_or in Hn as [Hn|Hn].
            * apply Hfr; [|exact Hn]. apply Hall. now left.
            * assert (s1 <= ref n); [|lia]. apply Hfr2; [|exact Hn].
              intros z Hz. apply Hall. now right. }
      destruct (Hcs (S s)) as (Hle & Hal & Hfr).
      cbn [recursiveSet]. unfold bind at 1. unfold alloc. unfold bind.
      fold (mapM (recursiveSet v)).
      destruct (mapM (recursiveSet v) cs (S s)) as [cs' s1]. cbn in *.
      split; [lia|]. split; [reflexivity|]. split.
      * intros Halloc n [<-|Hn]; [cbn; lia|]. apply Hal; [|exact Hn].
        intros c Hc. eapply allocated_mono; [|apply Nat.le_succ_diag_r].
        eapply allocated_child; [exact Halloc | exact Hc].
      * intros Hleaves n [<-|Hn]; [cbn; lia|].
        assert (S s <= ref n); [|lia]. apply Hfr; [|exact Hn].
        intros c Hc. eapply files_are_leaves_child; [exact Hleaves | exact Hc].
    + cbn. split; [lia|]. split; [reflexivity|]. split.
      * intros Halloc n [<-|Hn]; [cbn; lia|].
        assert (ref n < s); [|lia]. apply Halloc. rewrite nodes_children. now right.
      * intros Hleaves n [<-|Hn]; [cbn; lia|].
        pose proof (Hleaves _ (nodes_self _) eq_refl) as Hnone. cbn in Hnone.
        subst cs. destruct Hn.
Qed.

Lemma setAllExpanded_keeps_invariant (v : bool) (t : option FileSystemNode) (s : loc) :
  editor_invariant (t, s) -> editor_invariant (setAllExpanded v t s).
Proof.
  destruct t as [t|]; [|intros _; exact I].
  unfold editor_invariant. cbn [fst snd]. intros (Hid & Hty & Hall & Hal).
  destruct (recursiveSet_spec v t s) as (t' & s' & E & Hf & Hl).
  pose proof (recursiveSet_refs v t s) as (_ & _ & Hal' & _).
  unfold setAllExpanded, bind, ret. rewrite E in *. cbn [fst snd] in *.
  pose proof (forget_expanded_labels t') as Hlab.
  rewrite Hf, forget_expanded_labels in Hlab. symmetry in Hlab.
  assert (Hroot : (id t', name t', type t') = (id t, name t, type t)).
  { pose proof Hlab as Hhd. rewrite (nodes_cons t'), (nodes_cons t) in Hhd.
    cbn [map] in Hhd. injection Hhd; intros; congruence. }
  injection Hroot as Hi Hn Ht.
  split; [unfold root_is_sentinel in *; congruence|]. split; [congruence|].
  split; [|now apply Hal'].
  assert (Hleaves : files_are_leaves t) by (intros n Hn' Hfile; now apply (Hall n Hn')).
  destruct (Hl Hleaves) as [Hleaves' _].
  intros n Hn'. split; [now apply Hleaves'|].
  assert (Hnm : In (name n) (map name (nodes t))).
  { apply (f_equal (map (fun x => snd (fst x)))) in Hlab.
    rewrite !map_map in Hlab. cbn in Hlab.
    change (map name (nodes t') = map name (nodes t)) in Hlab.
    rewrite <- Hlab. now apply in_map. }
  apply in_map_iff in Hnm as (m & Hm & Hin). rewrite <- Hm.
  exact (proj2 (Hall m Hin)).
Qed.

Lemma create_root_establishes_invariant (s : loc) :
  editor_invariant (handleCreateRoot s).
Proof.
  unfold handleCreateRoot, bind, alloc, ret, editor_invariant. cbn [fst snd].
  split; [reflexivity|]. split; [reflexivity|]. split.
  - intros n [<-|[]]. split; [discriminate|]. vm_compute. discriminate.
  - intros n [<-|[]]. cbn. lia.
Qed.

Lemma confirm_edit_keeps_invariant (now rnd : string) (node : FileSystemNode)
    (st : EditorState) (t : option FileSystemNode) (s : loc) :
  editor_invariant (t, s) -> editor_invariant (confirm_edit now rnd node st t s).
Proof.
  intros Hinv. unfold confirm_edit, handleConfirm.
  destruct (String.eqb_spec (trim (inputValue st)) EmptyString) as [E|Hnm];
    [exact Hinv|].
  cbn [fst]. destruct (isAdding st) as [ty|]; cbn [run_callback].
  - now apply add_keeps_invariant.
  - destruct (isRenaming st); cbn [run_callback]; [|exact Hinv].
    unfold handleRenameNode. rewrite rename_logic_is_field_logic.
    apply field_logic_keeps_invariant; [|exact Hinv]. intros _ _. exact Hnm.
Qed.

Lemma toggle_keeps_invariant (nodeId : string) (t : option FileSystemNode) (s : loc) :
  editor_invariant (t, s) -> editor_invariant (handleToggleExpand nodeId t s).
Proof.
  unfold handleToggleExpand. rewrite toggle_logic_is_field_logic.
  apply field_logic_keeps_invariant. auto.
Qed.

Lemma load_keeps_invariant (loadedTree : FileSystemNode) (t : option FileSystemNode)
    (s s' : loc) :
  project_ok loadedTree -> s <= s' -> allocated s' loadedTree ->
  editor_invariant (t, s) -> editor_invariant (load_and_confirm loadedTree t s').
Proof.
  intros (Hid & Hty & Hall) Hle Hal Hinv.
  unfold load_and_confirm, handleLoadProject, modal_handleConfirm, bind, ret.
  destruct (load_accepts loadedTree); cbn [fst snd confirmation onConfirm run_confirm tree].
  - unfold editor_invariant, ret. cbn [fst snd tree].
    split; [exact Hid|]. split; [exact Hty|]. split; [exact Hall | exact Hal].
  - unfold editor_invariant in *. cbn [fst snd tree] in *.
    destruct t as [t|]; [|exact I]. destruct Hinv as (Hi & Ht & Ha & Hb).
    split; [exact Hi|]. split; [exact Ht|]. split; [exact Ha|].
    eapply allocated_mono; [exact Hb | exact Hle].
Qed.

(** *** The root passes the test of Load Project, whatever is loaded *)

Lemma load_accepts_fields (p t : FileSystemNode) :
  fields p = fields t -> load_accepts p = load_accepts t.
Proof.
  unfold fields, load_accepts. intros H. injection H as Hi Hn _ _. now rewrite Hi, Hn.
Qed.

Lemma updateTree_keeps_label (logic : Logic) (t : option FileSystemNode) (s : loc) :
  (forall p s0 p', load_accepts p = true -> fst (logic p s0) = Some p' ->
                   load_accepts p' = true) ->
  root_is_labelled (t, s) -> root_is_labelled (updateTree logic t s).
Proof.
  intros Hlogic. destruct t as [t|]; [|intros _; exact I].
  unfold root_is_labelled, updateTree. cbn [fst]. intros Ht.
  destruct (modifyTree_fields logic t s) as (p & s2 & E & Hp). rewrite E.
  destruct (fst (logic p s2)) as [p'|] eqn:Erun; [|exact I].
  apply (Hlogic p s2 p'); [|exact Erun].
  now rewrite (load_accepts_fields p t Hp).
Qed.

Lemma delete_keeps_label (nodeId : string) (t : option FileSystemNode) (s : loc) :
  root_is_labelled (t, s) -> root_is_labelled (handleDeleteNode nodeId t s).
Proof.
  unfold handleDeleteNode. destruct (String.eqb nodeId "root"); [auto|].
  apply updateTree_keeps_label. intros p s0 p' Hp. unfold delete_logic, ret. cbn.
  destruct (String.eqb (id p) nodeId); [discriminate|]. now intros [= <-].
Qed.

Lemma toggle_keeps_label (nodeId : string) (t : option FileSystemNode) (s : loc) :
  root_is_labelled (t, s) -> root_is_labelled (handleToggleExpand nodeId t s).
Proof.
  apply updateTree_keeps_label. intros p s0 p' Hp. unfold toggle_logic, bind, alloc, ret.
  destruct (String.eqb (id p) nodeId && NodeType_eqb (type p) folder);
    cbn; intros [= <-]; exact Hp.
Qed.

Lemma add_keeps_label (now rnd parentId nm : string) (ty : NodeType)
    (t : option FileSystemNode) (s : loc) :
  root_is_labelled (t, s) ->
  root_is_labelled (handleAddNode now rnd parentId nm ty t s).
Proof.
  intros Hinv. unfold handleAddNode, bind, alloc.
  apply updateTree_keeps_label.
  - intros p s0 p' Hp. unfold add_logic, bind, alloc, ret.
    destruct (String.eqb (id p) parentId && NodeType_eqb (type p) folder);
      cbn; intros [= <-]; exact Hp.
  - destruct t; exact Hinv.
Qed.

Lemma rename_keeps_label (nodeId newName : string) (t : option FileSystemNode) (s : loc) :
  trim newName <> EmptyString ->
  root_is_labelled (t, s) -> root_is_labelled (handleRenameNode nodeId newName t s).
Proof.
  intros Hnm. apply updateTree_keeps_label.
  intros p s0 p' Hp. unfold rename_logic, bind, alloc, ret.
  destruct (String.eqb (id p) nodeId); cbn; intros [= <-]; [|exact Hp].
  unfold load_accepts in *. cbn [id name].
  apply andb_true_iff in Hp as [Hi _]. rewrite Hi. cbn [andb].
  destruct (String.eqb_spec newName EmptyString) as [E|_]; [|reflexivity].
  exfalso. apply Hnm. now rewrite E.
Qed.

Lemma confirm_edit_keeps_label (now rnd : string) (node : FileSystemNode)
    (st : EditorState) (t : option FileSystemNode) (s : loc) :
  root_is_labelled (t, s) -> root_is_labelled (confirm_edit now rnd node st t s).
Proof.
  intros Hinv. unfold confirm_edit, handleConfirm.
  destruct (String.eqb_spec (trim (inputValue st)) EmptyString) as [E|Hnm];
    [exact Hinv|].
  cbn [fst]. destruct (isAdding st) as [ty|]; cbn [run_callback].
  - now apply add_keeps_label.
  - destruct (isRenaming st); cbn [run_callback]; [|exact Hinv].
    now apply rename_keeps_label.
Qed.

Lemma setAllExpanded_keeps_label (v : bool) (t : option FileSystemNode) (s : loc) :
  root_is_labelled (t, s) -> root_is_labelled (setAllExpanded v t s).
Proof.
  destruct t as [t|]; [|intros _; exact I].
  unfold root_is_labelled, setAllExpanded, bind, ret, load_accepts. cbn [fst].
  destruct t as [r i nm ty [cs|] e]; destruct ty; cbn [recursiveSet];
    unfold bind, alloc, ret; try (intros H; exact H).
  destruct (mapM (recursiveSet v) cs (S s)) as [cs' s1]. intros H. exact H.
Qed.

Lemma load_keeps_label (loadedTree : FileSystemNode) (t : option FileSystemNode)
    (s s' : loc) :
  root_is_labelled (t, s) -> root_is_labelled (load_and_confirm loadedTree t s').
Proof.
  intros Hinv.
  unfold load_and_confirm, handleLoadProject, modal_handleConfirm, bind, ret.
  destruct (load_accepts loadedTree) eqn:Hacc;
    cbn [fst snd confirmation onConfirm run_confirm tree].
  - exact Hacc.
  - exact Hinv.
Qed.

Lemma sample_tree_project_ok : project_ok sample_tree.
Proof.
  split; [reflexivity|]. split; [reflexivity|].
  intros n Hn. cbn in Hn.
  destruct Hn as [<-|[<-|[<-|[<-|[]]]]]; split; cbn;
    try discriminate; try reflexivity; vm_compute; discriminate.
Qed.

(** X8. The invariant of the editor, and what loading does to it.  The
    invariant: when a tree is present, its root has the sentinel id
    ['root'] and is a folder, no file has children, no name is blank,
    and every object lies below the allocator.  Every user action on the
    tree other than a load (creating the root, confirming an inline add
    or rename, toggling, a delete, Expand All / Collapse All, a new
    project) keeps it, and Load Project keeps it when the tree in the
    file satisfies it; so it holds of every state reached from the start
    of the application as long as every tree that comes from outside, a
    loaded file or what local storage held, is such a tree.  Without
    that condition it fails: Load Project accepts a file whose root is a
    File node with another id and a blank name, and installs it.  What
    every action keeps whatever file is loaded is what the test of Load
    Project checks, that the root's id and name are not empty; it holds
    of every state reached from a start that passes this test, the empty
    application among them.  (A file is taken to hold a value of the
    shape of [FileSystemNode]; the test itself does not see to that.) *)
Theorem editor_invariant_is_kept :
  (forall a b, editor_invariant a -> edit_step project_ok a b -> editor_invariant b) /\
  (forall a b, app_start project_ok a -> edit_steps project_ok a b ->
               editor_invariant b) /\
  (edit_step any_file (None, 0) (Some (mkNode 0 "x" " " file None None), 1) /\
   ~ editor_invariant (Some (mkNode 0 "x" " " file None None), 1)) /\
  (forall a b, root_is_labelled a -> edit_step any_file a b -> root_is_labelled b) /\
  (forall a b, app_start (fun savedTree => load_accepts savedTree = true) a ->
               edit_steps any_file a b -> root_is_labelled b).
Proof.
  assert (Hstep : forall a b, editor_invariant a -> edit_step project_ok a b ->
                              editor_invariant b).
  { intros a b Hinv Hs. destruct Hs.
    - apply create_root_establishes_invariant.
    - now apply confirm_edit_keeps_invariant.
    - now apply toggle_keeps_invariant.
    - now apply delete_keeps_invariant.
    - now apply setAllExpanded_keeps_invariant.
    - exact I.
    - now apply (load_keeps_invariant loadedTree t s s'). }
  assert (Hlabel : forall a b, root_is_labelled a -> edit_step any_file a b ->
                               root_is_labelled b).
  { intros a b Hinv Hs. destruct Hs.
    - reflexivity.
    - now apply confirm_edit_keeps_label.
    - now apply toggle_keeps_label.
    - now apply delete_keeps_label.
    - now apply setAllExpanded_keeps_label.
    - exact I.
    - now apply (load_keeps_label loadedTree t s s'). }
  split; [exact Hstep|]. split; [|split; [|split; [exact Hlabel|]]].
  - intros a b Hstart Hsteps.
    induction Hsteps as [a | a b c _ IH Hs].
    + destruct Hstart as [s | savedTree s (Hid & Hty & Hall) Hal]; [exact I|].
      unfold editor_invariant. cbn [fst snd].
      split; [exact Hid|]. split; [exact Hty|]. split; [exact Hall | exact Hal].
    + exact (Hstep b c (IH Hstart) Hs).
  - split.
    + apply (step_load_project any_file (mkNode 0 "x" " " file None None) None 0 1).
      * exact I.
      * lia.
      * intros n [<-|[]]. cbn. lia.
    + unfold editor_invariant, root_is_sentinel, ROOT_ID. cbn [fst id].
      intros (Hid & _). discriminate Hid.
  - intros a b Hstart Hsteps.
    induction Hsteps as [a | a b c _ IH Hs].
    + destruct Hstart as [s | savedTree s Hacc _]; [exact I | exact Hacc].
    + exact (Hlabel b c (IH Hstart) Hs).
Qed.

Lemma editor_invariant_is_kept_witness :
  editor_invariant
    (confirm_edit "1700000000000" "0.25" sample_tree
       (mkEditor (Some file) false "notes.txt")
       (fst (load_and_confirm sample_tree (fst (handleCreateRoot 0)) 4))
       (snd (load_and_confirm sample_tree (fst (handleCreateRoot 0)) 4))).
Proof.
  apply (proj1 (proj2 editor_invariant_is_kept) (None, 0)); [apply start_empty|].
  eapply steps_more.
  - eapply steps_more.
    + eapply steps_more; [apply steps_none|].
      apply (step_create_root project_ok None 0).
    + apply (step_load_project project_ok sample_tree
               (fst (handleCreateRoot 0)) (snd (handleCreateRoot 0)) 4).
      * exact sample_tree_project_ok.
      * cbn. lia.
      * exact sample_tree_allocated.
  - exact (step_confirm_edit project_ok "1700000000000" "0.25" sample_tree
             (mkEditor (Some file) false "notes.txt")
             (fst (load_and_confirm sample_tree (fst (handleCreateRoot 0)) 4))
             (snd (load_and_confirm sample_tree (fst (handleCreateRoot 0)) 4))).
Defined.

(** ** The bulk buttons rebuild the tree *)

(** X9. Expand All / Collapse All copy every node.  On a tree of the
    data model (files without children), [setAllExpanded] returns a tree
    of the same size in which every object is newly allocated, so that
    no object of the old tree, not even an unaffected file, is an object
    of the new one. *)
Theorem setAllExpanded_shares_nothing (v : bool) (t : FileSystemNode) (s : loc) :
  files_are_leaves t ->
  allocated s t ->
  exists t' s',
    setAllExpanded v (Some t) s = (Some t', s') /\
    node_count t' = node_count t /\
    (forall n, In n (nodes t') -> s <= ref n /\ ref n < s') /\
    (forall n, In n (nodes t') -> ~ In n (nodes t)).
Proof.
  intros Hleaves Halloc.
  destruct (recursiveSet_spec v t s) as (t' & s' & E & Hf & _).
  pose proof (recursiveSet_refs v t s) as (_ & _ & Hal & Hfresh).
  rewrite E in Hal, Hfresh. cbn [fst snd] in Hal, Hfresh.
  exists t', s'. unfold setAllExpanded, bind, ret. rewrite E.
  split; [reflexivity|]. split; [|split].
  - pose proof (forget_expanded_labels t') as Hlab.
    rewrite Hf, forget_expanded_labels in Hlab.
    apply (f_equal (@List.length _)) in Hlab. rewrite !length_map in Hlab.
    unfold node_count. now symmetry.
  - intros n Hn. split; [now apply Hfresh | now apply Hal].
  - intros n Hn Hold. specialize (Hfresh Hleaves n Hn). specialize (Halloc n Hold). lia.
Qed.

Lemma setAllExpanded_shares_nothing_witness :
  exists t' s',
    setAllExpanded true (Some sample_tree) 4 = (Some t', s') /\
    node_count t' = node_count sample_tree /\
    (forall n, In n (nodes t') -> 4 <= ref n /\ ref n < s') /\
    (forall n, In n (nodes t') -> ~ In n (nodes sample_tree)).
Proof.
  apply (setAllExpanded_shares_nothing true sample_tree 4).
  - exact sample_tree_files_are_leaves.
  - exact sample_tree_allocated.
Defined.

(** ** What is on screen *)

Lemma rendered_all (t : FileSystemNode) :
  forall depth,
    files_are_leaves t ->
    (forall n, In n (nodes t) -> type n = folder -> truthy (isExpanded n) = true) ->
    map fst (rendered depth t) = nodes t.
Proof.
  induction t as [r i nm ty e | r i nm ty cs e IH] using node_ind';
    intros depth Hleaves Hexp.
  - cbn. destruct (NodeType_eqb ty folder && truthy e); reflexivity.
  - cbn [rendered]. rewrite nodes_children. cbn [map fst]. f_equal.
    destruct ty.
    + pose proof (Hexp _ (nodes_self _) eq_refl) as He. cbn in He.
      rewrite He. cbn [NodeType_eqb andb].
      assert (Hc : forall c, In c cs ->
                files_are_leaves c /\
                (forall n, In n (nodes c) -> type n = folder ->
                           truthy (isExpanded n) = true)).
      { intros c Hc. split.
        - eapply files_are_leaves_child; [exact Hleaves | exact Hc].
        - intros n Hn. apply Hexp. eapply nodes_child; [exact Hc | exact Hn]. }
      clear Hleaves Hexp.
      induction IH as [|c cs Hcc _ IHcs]; [reflexivity|].
      cbn [flat_map]. rewrite map_app.
      destruct (Hc c (or_introl eq_refl)) as [H1 H2].
      rewrite (Hcc (S depth) H1 H2), IHcs; [reflexivity|].
      intros z Hz. apply Hc. now right.
    + pose proof (Hleaves _ (nodes_self _) eq_refl) as Hnone. cbn in Hnone.
      now subst cs.
Qed.

(** X10. What the bulk buttons show.  After Collapse All the only row on
    screen is the root, whatever the tree; after Expand All on a tree of
    the data model (files without children) the rows on screen are all
    the nodes of the tree, in pre-order. *)
Theorem bulk_buttons_and_the_screen (t : FileSystemNode) (s : loc) :
  (exists t' s',
      setAllExpanded false (Some t) s = (Some t', s') /\
      rendered 0 t' = [(t', 0)]) /\
  (files_are_leaves t ->
   exists t' s',
     setAllExpanded true (Some t) s = (Some t', s') /\
     map fst (rendered 0 t') = nodes t').
Proof.
  split.
  - destruct t as [r i nm ty ch e]. unfold setAllExpanded, bind, ret.
    destruct ty.
    + destruct ch as [cs|].
      * cbn [recursiveSet]. unfold bind at 1. unfold alloc. unfold bind.
        fold (mapM (recursiveSet false)).
        destruct (mapM (recursiveSet false) cs (S s)) as [cs' s1].
        eexists _, _. split; reflexivity.
      * eexists _, _. split; reflexivity.
    + eexists _, _. split; reflexivity.
  - intros Hleaves.
    destruct (recursiveSet_spec true t s) as (t' & s' & E & _ & Hl).
    destruct (Hl Hleaves) as [Hleaves' Hflags].
    exists t', s'. unfold setAllExpanded, bind, ret. rewrite E.
    split; [reflexivity|]. apply rendered_all; [exact Hleaves'|].
    intros n Hn Hty. now rewrite (Hflags n Hn Hty).
Qed.

Lemma bulk_buttons_and_the_screen_witness :
  exists t' s',
    setAllExpanded true (Some sample_tree) 4 = (Some t', s') /\
    map fst (rendered 0 t') = nodes t'.
Proof.
  apply (proj2 (bulk_buttons_and_the_screen sample_tree 4)).
  exact sample_tree_files_are_leaves.
Defined.

Lemma rendered_inv (t : FileSystemNode) :
  forall k n d,
    In (n, d) (rendered k t) ->
    (n = t /\ d = k) \/ (In n (descendants t) /\ k < d).
Proof.
  induction t as [r i nm ty e | r i nm ty cs e IH] using node_ind'; intros k n d Hin.
  - cbn in Hin. destruct (NodeType_eqb ty folder && truthy e);
      destruct Hin as [[= <- <-]|[]]; left; auto.
  - cbn [rendered] in Hin. destruct Hin as [[= <- <-]|Hin]; [left; auto|].
    right. destruct (NodeType_eqb ty folder && truthy e); [|destruct Hin].
    apply in_flat_map in Hin as (c & Hc & Hin).
    rewrite Forall_forall in IH. rewrite descendants_children.
    destruct (IH c Hc (S k) n d Hin) as [[-> ->]|[Hdesc Hlt]].
    + split; [|lia]. apply in_flat_map. exists c. split; [exact Hc | apply nodes_self].
    + split; [|lia]. apply in_flat_map. exists c. split; [exact Hc|].
      rewrite nodes_cons. now right.
Qed.

Lemma rendered_in_nodes (t n : FileSystemNode) (k d : nat) :
  In (n, d) (rendered k t) -> In n (nodes t).
Proof.
  intros H. rewrite nodes_cons.
  destruct (rendered_inv t k n d H) as [[-> _]|[Hd _]]; [now left | now right].
Qed.

(** X11. The three guards of delete agree.  On a tree of the data model
    (unique ids, root with the sentinel id), for every row on screen that
    is not being renamed, the Delete button of the row (shown below
    depth 0) and the Delete item of the context menu (shown unless the
    id is ['root']) are offered together, and they are withheld exactly
    for the root.  Where they are offered, the delete request opens a
    dialog whose confirmation runs the delete handler on that id and
    closes the dialog; for the root the request is ignored. *)
Theorem delete_guards_agree
    (t : FileSystemNode) (n : FileSystemNode) (depth : nat) (est : EditorState) :
  unique_ids t ->
  root_is_sentinel t ->
  In (n, depth) (rendered 0 t) ->
  isRenaming est = false ->
  row_offers_delete est depth = menu_offers_delete n /\
  (row_offers_delete est depth = false <-> n = t) /\
  (forall st s,
      if row_offers_delete est depth
      then tree (handleDeleteNodeRequest (id n) (name n) st) = tree st /\
           modal_handleConfirm (handleDeleteNodeRequest (id n) (name n) st) s
           = (mkApp (fst (handleDeleteNode (id n) (tree st) s)) None,
              snd (handleDeleteNode (id n) (tree st) s))
      else handleDeleteNodeRequest (id n) (name n) st = st).
Proof.
  intros Huniq Hroot Hin Hest. unfold root_is_sentinel, ROOT_ID in Hroot.
  unfold row_offers_delete, menu_offers_delete. rewrite Hest. cbn [negb andb].
  destruct (rendered_inv t 0 n depth Hin) as [[-> ->]|[Hdesc Hlt]].
  - rewrite Hroot. cbn. split; [reflexivity|]. split; [tauto|].
    intros st s. reflexivity.
  - assert (Hne : id n <> "root").
    { intros E. assert (n = t).
      { apply (NoDup_map_inj id (nodes t)); auto using nodes_self.
        - rewrite nodes_cons. now right.
        - congruence. }
      subst n. unfold unique_ids, ids in Huniq. rewrite nodes_cons in Huniq.
      cbn in Huniq. inversion Huniq as [|? ? Hnot _]; subst.
      apply Hnot. now apply in_map. }
    assert (Hnt : n <> t) by (intros ->; congruence).
    destruct (String.eqb_spec (id n) "root") as [E|_]; [contradiction|].
    destruct depth as [|depth]; [lia|]. cbn.
    split; [reflexivity|]. split; [split; [discriminate | contradiction]|].
    intros st s. unfold handleDeleteNodeRequest.
    destruct (String.eqb_spec (id n) "root") as [E|_]; [contradiction|].
    split; [reflexivity|].
    unfold modal_handleConfirm, bind, ret. cbn.
    destruct (handleDeleteNode (id n) (tree st) s). reflexivity.
Qed.

Lemma delete_guards_agree_witness :
  row_offers_delete editor_closed 2 = menu_offers_delete sample_c /\
  (row_offers_delete editor_closed 2 = false <->
   sample_c = mkNode 0 "root" "my-project" folder
                (Some [sample_a; mkNode 2 "root-b" "lib" folder (Some [sample_c]) (Some true)])
                (Some true)) /\
  (forall st s,
      if row_offers_delete editor_closed 2
      then tree (handleDeleteNodeRequest (id sample_c) (name sample_c) st) = tree st /\
           modal_handleConfirm (handleDeleteNodeRequest (id sample_c) (name sample_c) st) s
           = (mkApp (fst (handleDeleteNode (id sample_c) (tree st) s)) None,
              snd (handleDeleteNode (id sample_c) (tree st) s))
      else handleDeleteNodeRequest (id sample_c) (name sample_c) st = st).
Proof.
  apply (delete_guards_agree
           (mkNode 0 "root" "my-project" folder
              (Some [sample_a; mkNode 2 "root-b" "lib" folder (Some [sample_c]) (Some true)])
              (Some true))
           sample_c 2 editor_closed).
  - repeat constructor; cbn; intuition discriminate.
  - reflexivity.
  - cbn. auto.
  - reflexivity.
Defined.

(** The new node of an add is on screen when its parent was. *)
Lemma add_rendered (new : FileSystemNode) (t : FileSystemNode) :
  forall (depth : nat) (d : FileSystemNode) (k : nat) (s : loc),
    unique_ids t -> In (d, k) (rendered depth t) -> type d = folder ->
    allocated s t ->
    exists t' s',
      modifyTree t (add_logic (id d) new) s = (Some t', s') /\
      In (new, S k) (rendered depth t').
Proof.
  assert (Hhead : forall j, In (new, j) (rendered j new)).
  { intros j. destruct new as [r0 i0 n0 t0 c0 e0]. left. reflexivity. }
  induction t as [r i nm ty e | r i nm ty cs e IH] using node_ind';
    intros depth d k s Huniq Hd Hfolder Halloc.
  - assert (Hdk : d = mkNode r i nm ty None e /\ k = depth).
    { cbn in Hd. destruct (NodeType_eqb ty folder && truthy e);
        destruct Hd as [[= <- <-]|[]]; auto. }
    destruct Hdk as [-> ->]. cbn in Hfolder. subst ty. cbn [id].
    rewrite add_here by (auto; intros c []).
    eexists _, _. split; [reflexivity|]. cbn. right.
    apply in_or_app. left. apply Hhead.
  - cbn [rendered] in Hd. destruct Hd as [[= <- <-]|Hd].
    + cbn in Hfolder. subst ty. cbn [id].
      rewrite add_here; auto;
        [|intros c Hc; exact (unique_ids_root_not_below _ _ _ _ _ _ Huniq c Hc)].
      eexists _, _. split; [reflexivity|].
      cbn [rendered id name type children_or_empty children NodeType_eqb truthy andb].
      right. rewrite flat_map_app. apply in_or_app. right. cbn.
      apply in_or_app. left. apply Hhead.
    + destruct (NodeType_eqb ty folder && truthy e) eqn:Hopen; [|destruct Hd].
      apply in_flat_map_split in Hd as (l & c & rr & -> & Hdc).
      pose proof (rendered_in_nodes c d (S depth) k Hdc) as Hdn.
      destruct (unique_ids_split _ _ _ _ _ _ _ _ Huniq) as (Hc & Hic & Hdisj).
      set (pid := id d) in *.
      assert (Hpid : In pid (ids c)) by (apply id_in_ids; exact Hdn).
      assert (Hi : i <> pid) by (intros ->; contradiction).
      assert (Hl : forall x, In x l -> forall s0,
                 modifyTree x (add_logic pid new) s0 = (Some x, s0)).
      { intros x Hx. apply add_absent. intros Hin.
        apply (proj1 (Hdisj pid Hpid)). apply in_flat_map. now exists x. }
      assert (Hr : forall x, In x rr -> forall s0,
                 modifyTree x (add_logic pid new) s0 = (Some x, s0)).
      { intros x Hx. apply add_absent. intros Hin.
        apply (proj2 (Hdisj pid Hpid)). apply in_flat_map. now exists x. }
      pose proof (mapM_around (fun child => modifyTree child (add_logic pid new))
                    l c rr s Hl Hr) as Hmap.
      destruct (modifyTree_rule_input (add_logic pid new) r i nm ty (l ++ c :: rr) e s
                  (add_logic_well_behaved pid new) Halloc _ _ Hmap)
        as (_ & r' & s2 & Hrun & _).
      assert (Hcin : In c (l ++ c :: rr)) by (apply in_or_app; right; now left).
      rewrite Forall_forall in IH.
      destruct (IH c Hcin (S depth) d k s Hc Hdc Hfolder
                  (allocated_child _ _ _ Halloc Hcin)) as (c' & s1 & Ec & Hnew).
      fold pid in Ec. rewrite Ec in Hrun. cbn [fst] in Hrun.
      rewrite filter_non_null_app in Hrun. cbn [filter_non_null] in Hrun.
      rewrite !filter_non_null_Some in Hrun.
      rewrite Hrun. unfold add_logic. cbn [id type].
      destruct (String.eqb_spec i pid) as [E|_]; [contradiction|]. cbn [andb].
      eexists _, _. split; [reflexivity|].
      cbn [rendered]. rewrite Hopen. right.
      rewrite flat_map_app. apply in_or_app. right. cbn [flat_map].
      apply in_or_app. now left.
Qed.

(** X12. A node just added is on screen.  In a tree with unique ids, an
    add under a folder whose row is on screen at depth [k] returns a
    tree in which the new node, carrying the given name and kind, has a
    row on screen at depth [k + 1]: the add expands the parent. *)
Theorem added_node_is_on_screen
    (t d : FileSystemNode) (k : nat) (now rnd nm : string) (ty : NodeType) (s : loc) :
  unique_ids t ->
  In (d, k) (rendered 0 t) ->
  type d = folder ->
  allocated s t ->
  exists t' new s',
    handleAddNode now rnd (id d) nm ty (Some t) s = (Some t', s') /\
    name new = nm /\ type new = ty /\
    In (new, S k) (rendered 0 t').
Proof.
  intros Huniq Hd Hfolder Halloc.
  destruct (add_rendered (new_node_data s now rnd (id d) nm ty) t 0 d k (S s)
              Huniq Hd Hfolder (allocated_mono _ _ _ Halloc (Nat.le_succ_diag_r s)))
    as (t' & s' & E & Hin).
  exists t', (new_node_data s now rnd (id d) nm ty), s'.
  split; [exact E|]. split; [reflexivity|]. split; [reflexivity | exact Hin].
Qed.

Lemma added_node_is_on_screen_witness :
  exists t' new s',
    handleAddNode "1700000000000" "0.25" (id sample_tree) "x.txt" file (Some sample_tree) 4
      = (Some t', s') /\
    name new = "x.txt" /\ type new = file /\
    In (new, 1) (rendered 0 t').
Proof.
  apply (added_node_is_on_screen sample_tree sample_tree 0
           "1700000000000" "0.25" "x.txt" file 4).
  - exact sample_tree_unique_ids.
  - cbn. auto.
  - reflexivity.
  - exact sample_tree_allocated.
Defined.

(** ** The inline editor and pending actions *)

(** X13. A pending add opens its parent.  When the component of a folder
    receives the pending action "add under this id", it switches its
    editor to adding, clears the pending action, and toggles the folder
    only if it is not expanded: in the resulting tree the folder, at its
    old position, is expanded in either case. *)
Theorem pending_add_opens_the_parent
    (t node : FileSystemNode) (k : nat) (ty : NodeType) (st : EditorState) (s : loc) :
  nth_error (nodes t) k = Some node ->
  type node = folder ->
  allocated s t ->
  isAdding (snd (fst (pending_effect (Some (pending_add (id node) ty)) node st))) = Some ty /\
  snd (pending_effect (Some (pending_add (id node) ty)) node st) = true /\
  exists t' s' node',
    run_pending (Some (pending_add (id node) ty)) node st (Some t) s = (Some t', s') /\
    nth_error (nodes t') k = Some node' /\
    id node' = id node /\ name node' = name node /\
    truthy (isExpanded node') = true.
Proof.
  intros Hk Hfolder Halloc. unfold run_pending, pending_effect.
  rewrite String.eqb_refl. cbn [fst snd isAdding].
  split; [reflexivity|]. split; [reflexivity|].
  destruct (truthy (isExpanded node)) eqn:Hopen; cbn [negb].
  - exists t, s, node. repeat split; auto.
  - unfold handleToggleExpand, updateTree. rewrite toggle_logic_is_field_logic.
    destruct (field_logic_nth
                (fun i ty0 => String.eqb i (id node) && NodeType_eqb ty0 folder)
                (fun nm => nm) (fun e => Some (negb (truthy e))) t s Halloc)
      as (t' & s' & E & _ & Hnth).
    destruct (Hnth k node Hk) as (node' & Hk' & Hf).
    exists t', s', node'. split; [exact E|]. split; [exact Hk'|].
    unfold rewrite_fields, fields in Hf.
    rewrite Hfolder, String.eqb_refl, Hopen in Hf. cbn in Hf.
    injection Hf as Hi Hn _ He. rewrite He. auto.
Qed.

Lemma pending_add_opens_the_parent_witness :
  isAdding (snd (fst (pending_effect (Some (pending_add (id sample_b) file))
                        sample_b editor_closed))) = Some file /\
  snd (pending_effect (Some (pending_add (id sample_b) file)) sample_b editor_closed)
    = true /\
  exists t' s' node',
    run_pending (Some (pending_add (id sample_b) file)) sample_b editor_closed
                (Some sample_tree) 4 = (Some t', s') /\
    nth_error (nodes t') 2 = Some node' /\
    id node' = id sample_b /\ name node' = name sample_b /\
    truthy (isExpanded node') = true.
Proof.
  apply (pending_add_opens_the_parent sample_tree sample_b 2 file editor_closed 4).
  - reflexivity.
  - reflexivity.
  - exact sample_tree_allocated.
Defined.

(** A rename that finds its target rebuilds the path up to the root. *)
Lemma rename_rebuilds_root (newName : string) (t : FileSystemNode) :
  forall (d : FileSystemNode) (s : loc),
    unique_ids t -> In d (nodes t) -> allocated s t ->
    exists t' s',
      modifyTree t (rename_logic (id d) newName) s = (Some t', s') /\ s <= ref t'.
Proof.
  induction t as [r i nm ty e | r i nm ty cs e IH] using node_ind';
    intros d s Huniq Hd Halloc.
  - destruct Hd as [<-|[]].
    destruct (rename_at_target i newName (mkNode r i nm ty None e) s eq_refl)
      as (a' & s1 & E & Hlo & _). exists a', s1. auto.
  - rewrite nodes_cons in Hd. destruct Hd as [<-|Hd].
    + destruct (rename_at_target i newName (mkNode r i nm ty (Some cs) e) s eq_refl)
        as (a' & s1 & E & Hlo & _). exists a', s1. auto.
    + rewrite descendants_children in Hd.
      apply in_flat_map_split in Hd as (l & c & rr & -> & Hdc).
      destruct (unique_ids_split _ _ _ _ _ _ _ _ Huniq) as (Hc & Hic & Hdisj).
      set (pid := id d) in *.
      assert (Hpid : In pid (ids c)) by (apply id_in_ids; exact Hdc).
      assert (Hi : i <> pid) by (intros ->; contradiction).
      assert (Hl : forall x, In x l -> forall s0,
                 modifyTree x (rename_logic pid newName) s0 = (Some x, s0)).
      { intros x Hx. apply rename_off_target. intros Hin.
        apply (proj1 (Hdisj pid Hpid)). apply in_flat_map. now exists x. }
      assert (Hr : forall x, In x rr -> forall s0,
                 modifyTree x (rename_logic pid newName) s0 = (Some x, s0)).
      { intros x Hx. apply rename_off_target. intros Hin.
        apply (proj2 (Hdisj pid Hpid)). apply in_flat_map. now exists x. }
      pose proof (mapM_around (fun child => modifyTree child (rename_logic pid newName))
                    l c rr s Hl Hr) as Hmap.
      destruct (modifyTree_rule_input (rename_logic pid newName) r i nm ty
                  (l ++ c :: rr) e s (rename_logic_well_behaved pid newName)
                  Halloc _ _ Hmap)
        as (Hle & r' & s2 & Hrun & Hcase).
      assert (Hcin : In c (l ++ c :: rr)) by (apply in_or_app; right; now left).
      rewrite Forall_forall in IH.
      destruct (IH c Hcin d s Hc Hdc (allocated_child _ _ _ Halloc Hcin))
        as (c' & s1 & Ec & Hfresh).
      fold pid in Ec. rewrite Ec in Hrun, Hcase, Hle. cbn [fst snd] in Hrun, Hcase, Hle.
      rewrite filter_non_null_app in Hrun, Hcase.
      cbn [filter_non_null] in Hrun, Hcase.
      rewrite !filter_non_null_Some in Hrun, Hcase.
      rewrite Hrun. unfold rename_logic. cbn [id].
      destruct (String.eqb_spec i pid) as [E|_]; [contradiction|].
      eexists _, _. split; [reflexivity|]. cbn [ref].
      destruct Hcase as [(_ & _ & Hsame)|(-> & _)]; [|exact Hle].
      exfalso. apply app_inv_head in Hsame. injection Hsame as ->.
      assert (ref c < s); [|lia]. apply Halloc.
      eapply nodes_child; [exact Hcin | apply nodes_self].
Qed.

(** X14. Confirming a rename without touching the text.  Starting a
    rename fills the input with the node's current name; confirming it
    as it is (the name not being blank, the ids unique) still issues the
    rename: every id, name, kind and flag of the tree is as before, but
    the tree comes back as a newly allocated root object. *)
Theorem untouched_rename_rebuilds_the_path
    (t node : FileSystemNode) (st : EditorState) (now rnd : string) (s : loc) :
  unique_ids t ->
  In node (nodes t) ->
  allocated s t ->
  trim (name node) <> EmptyString ->
  isAdding st = None ->
  exists t' s',
    confirm_edit now rnd node (handleStartRename node st) (Some t) s = (Some t', s') /\
    map fields (nodes t') = map fields (nodes t) /\
    s <= ref t' /\ ref t' <> ref t.
Proof.
  intros Huniq Hnode Halloc Hname Hadd.
  unfold confirm_edit, handleConfirm, handleStartRename.
  cbn [inputValue isAdding isRenaming]. rewrite Hadd.
  destruct (String.eqb_spec (trim (name node)) EmptyString) as [E|_]; [contradiction|].
  cbn [fst run_callback]. unfold handleRenameNode, updateTree.
  destruct (rename_rebuilds_root (name node) t node s Huniq Hnode Halloc)
    as (t' & s' & Erun & Hfresh).
  exists t', s'. split; [exact Erun|].
  assert (Hr : ref t < s) by (apply Halloc, nodes_self).
  split; [|split; [exact Hfresh | lia]].
  rewrite rename_logic_is_field_logic in Erun.
  destruct (field_logic_map (fun i _ => String.eqb i (id node)) (fun _ => name node)
              (fun e0 => e0) t s Halloc) as (t'' & s'' & E & _ & _ & Hm).
  rewrite Erun in E. injection E as <- <-. rewrite Hm, map_map.
  apply map_ext_in. intros n Hn. unfold rewrite_fields, fields.
  destruct (String.eqb_spec (id n) (id node)) as [E|_]; [|reflexivity].
  assert (n = node) by (apply (NoDup_map_inj id (nodes t)); auto).
  now subst n.
Qed.

Lemma untouched_rename_rebuilds_the_path_witness :
  exists t' s',
    confirm_edit "0" "0" sample_c (handleStartRename sample_c editor_closed)
                 (Some sample_tree) 4 = (Some t', s') /\
    map fields (nodes t') = map fields (nodes sample_tree) /\
    4 <= ref t' /\ ref t' <> ref sample_tree.
Proof.
  apply (untouched_rename_rebuilds_the_path sample_tree sample_c editor_closed "0" "0" 4).
  - exact sample_tree_unique_ids.
  - cbn. auto.
  - exact sample_tree_allocated.
  - vm_compute. discriminate.
  - reflexivity.
Defined.

(** ** The calls the archive walk makes *)

(** What the walk of one node records: calls below the handle it was
    given, no content, one call per node at most. *)
Lemma trace_walk (n : FileSystemNode) :
  forall h,
    Forall (fun c => exists tl, call_parent c = h ++ tl)
           (addNodeToZip (W := TraceZip) n h []) /\
    Forall call_writes_nothing (addNodeToZip (W := TraceZip) n h []) /\
    List.length (addNodeToZip (W := TraceZip) n h []) <= node_count n /\
    (files_are_leaves n ->
     List.length (addNodeToZip (W := TraceZip) n h []) = node_count n).
Proof.
  induction n as [r i nm ty e | r i nm ty cs e IH] using node_ind'; intros h.
  - destruct ty; cbn; repeat split; auto;
      repeat constructor; exists []; now rewrite app_nil_r.
  - destruct ty.
    + rewrite trace_folder, node_count_children.
      assert (Hcs : forall h',
                Forall (fun c => exists tl, call_parent c = h' ++ tl)
                  (flat_map (fun c => addNodeToZip (W := TraceZip) c h' []) cs) /\
                Forall call_writes_nothing
                  (flat_map (fun c => addNodeToZip (W := TraceZip) c h' []) cs) /\
                List.length (flat_map (fun c => addNodeToZip (W := TraceZip) c h' []) cs)
                  <= List.length (flat_map nodes cs) /\
                ((forall c, In c cs -> files_are_leaves c) ->
                 List.length (flat_map (fun c => addNodeToZip (W := TraceZip) c h' []) cs)
                 = List.length (flat_map nodes cs))).
      { intros h'. induction IH as [|c cs Hc _ IHcs].
        - cbn. repeat split; auto.
        - destruct (Hc h') as (H1 & H2 & H3 & H4).
          destruct IHcs as (J1 & J2 & J3 & J4).
          cbn [flat_map]. rewrite !length_app. unfold node_count in *.
          split; [apply Forall_app; auto|]. split; [apply Forall_app; auto|].
          split; [lia|]. intros Hall.
          rewrite H4 by (apply Hall; now left).
          rewrite J4 by (intros z Hz; apply Hall; now right). reflexivity. }
      destruct (Hcs (h ++ [nm])) as (H1 & H2 & H3 & H4).
      split; [|split; [|split]].
      * constructor; [exists []; cbn; now rewrite app_nil_r|].
        eapply Forall_impl; [|exact H1]. intros c (tl & Htl).
        exists (nm :: tl). rewrite Htl, <- app_assoc. reflexivity.
      * constructor; [exact I | exact H2].
      * cbn [List.length]. lia.
      * intros Hleaves. cbn [List.length]. f_equal. apply H4.
        intros c Hc. eapply files_are_leaves_child; [exact Hleaves | exact Hc].
    + cbn [addNodeToZip zip_file TraceZip app]. rewrite node_count_children.
      split; [|split; [|split]].
      * repeat constructor. exists []. cbn. now rewrite app_nil_r.
      * repeat constructor.
      * cbn. lia.
      * intros Hleaves. pose proof (Hleaves _ (nodes_self _) eq_refl) as Hnone.
        cbn in Hnone. subst cs. reflexivity.
Qed.

Lemma trace_walk_children (h : list string) (cs : list FileSystemNode) :
  Forall (fun c => exists tl, call_parent c = h ++ tl)
    (flat_map (fun c => addNodeToZip (W := TraceZip) c h []) cs) /\
  Forall call_writes_nothing
    (flat_map (fun c => addNodeToZip (W := TraceZip) c h []) cs) /\
  List.length (flat_map (fun c => addNodeToZip (W := TraceZip) c h []) cs)
    <= List.length (flat_map nodes cs) /\
  ((forall c, In c cs -> files_are_leaves c) ->
   List.length (flat_map (fun c => addNodeToZip (W := TraceZip) c h []) cs)
   = List.length (flat_map nodes cs)).
Proof.
  induction cs as [|c cs IHcs].
  - cbn. repeat split; auto.
  - destruct (trace_walk c h) as (H1 & H2 & H3 & H4).
    destruct IHcs as (J1 & J2 & J3 & J4).
    cbn [flat_map]. rewrite !length_app. unfold node_count in *.
    split; [apply Forall_app; auto|]. split; [apply Forall_app; auto|].
    split; [lia|]. intros Hall.
    rewrite H4 by (apply Hall; now left).
    rewrite J4 by (intros z Hz; apply Hall; now right). reflexivity.
Qed.

(** X15. The calls of the archive walk.  Whatever the writer does with
    them, the calls the export makes on it are these: first
    [folder(root name)] on the archive itself; then only calls made
    inside that folder or below it; no [file] call ever carries content;
    and there is at most one call per node, exactly one when files have
    no children. *)
Theorem archive_walk_calls (t : FileSystemNode) :
  exists rest,
    populateZip (W := TraceZip) t = call_folder [] (name t) :: rest /\
    Forall (fun c => exists tl, call_parent c = name t :: tl) rest /\
    Forall call_writes_nothing (populateZip (W := TraceZip) t) /\
    List.length (populateZip (W := TraceZip) t) <= node_count t /\
    (files_are_leaves t ->
     List.length (populateZip (W := TraceZip) t) = node_count t).
Proof.
  destruct t as [r i nm ty [cs|] e].
  - assert (Hpop : populateZip (W := TraceZip) (mkNode r i nm ty (Some cs) e)
                   = call_folder [] nm
                     :: flat_map (fun c => addNodeToZip (W := TraceZip) c [nm] []) cs).
    { unfold populateZip. cbn [name children zip_folder zip_root new_JSZip TraceZip app].
      rewrite (trace_fold [nm] cs); [reflexivity|].
      apply Forall_forall. intros c _. apply trace_append. }
    destruct (trace_walk_children [nm] cs) as (H1 & H2 & H3 & H4).
    rewrite Hpop. eexists. split; [reflexivity|]. cbn [name].
    split; [exact H1|]. split; [constructor; [exact I | exact H2]|].
    rewrite node_count_children. cbn [List.length]. split; [lia|].
    intros Hleaves. f_equal. apply H4.
    intros c Hc. eapply files_are_leaves_child; [exact Hleaves | exact Hc].
  - exists []. cbn. repeat split; auto. repeat constructor.
Qed.

Lemma archive_walk_calls_witness :
  List.length (populateZip (W := TraceZip) sample_tree) = node_count sample_tree.
Proof.
  destruct (archive_walk_calls sample_tree) as (rest & _ & _ & _ & _ & Hcount).
  apply Hcount. exact sample_tree_files_are_leaves.
Defined.



Lemma delete_empties_tree_iff_unguarded_root_witness :
  fst (handleDeleteNode "top"
         (Some (mkNode 0 "top" "loaded" folder
                  (Some [mkNode 1 "top-1" "a.txt" file None None]) (Some true))) 2)
  = None.
Proof.
  apply (proj2 (delete_empties_tree_iff_unguarded_root
                  (mkNode 0 "top" "loaded" folder
                     (Some [mkNode 1 "top-1" "a.txt" file None None]) (Some true))
                  "top" 2)).
  split; [reflexivity | discriminate].
Defined.

(** ** Generated ids *)

Lemma append_dash_differs (p rest target : string) :
  (forall k, String.get k target <> Some "-"%char) ->
  (p ++ String "-"%char rest)%string <> target.
Proof.
  revert target. induction p as [|c p IH]; intros target Hno E; cbn in E.
  - subst target. exact (Hno 0 eq_refl).
  - destruct target as [|c' target']; [discriminate|].
    injection E as _ E. apply (IH target'); [|exact E].
    intros k. exact (Hno (S k)).
Qed.

Lemma new_node_id_is_not_root (now rnd parentId : string) :
  new_node_id now rnd parentId <> "root".
Proof.
  unfold new_node_id. apply append_dash_differs.
  intros [|[|[|[|[|k]]]]]; cbn; discriminate.
Qed.

(** X17. A generated id is never the sentinel.  Whatever the parent id,
    the clock and the random number, the id of a node created by add is
    not ['root']: the context menu offers Delete for it and a delete
    request on it opens the dialog. *)
Theorem generated_id_is_never_the_sentinel
    (r : loc) (now rnd parentId nm : string) (ty : NodeType) (st : AppState) :
  id (new_node_data r now rnd parentId nm ty) <> ROOT_ID /\
  menu_offers_delete (new_node_data r now rnd parentId nm ty) = true /\
  option_map onConfirm
    (confirmation
       (handleDeleteNodeRequest (id (new_node_data r now rnd parentId nm ty)) nm st))
  = Some (confirm_delete (id (new_node_data r now rnd parentId nm ty))).
Proof.
  pose proof (new_node_id_is_not_root now rnd parentId) as Hne.
  split; [exact Hne|].
  unfold menu_offers_delete, handleDeleteNodeRequest. cbn [id new_node_data].
  destruct (String.eqb_spec (new_node_id now rnd parentId) "root") as [E|_];
    [contradiction|].
  split; reflexivity.
Qed.

(** ** Add, then delete *)

Lemma add_allocated (new : FileSystemNode) (parentId : string) (t : FileSystemNode)
    (s : loc) (t' : FileSystemNode) :
  allocated s new -> allocated s t ->
  fst (modifyTree t (add_logic parentId new) s) = Some t' ->
  allocated (snd (modifyTree t (add_logic parentId new) s)) t'.
Proof.
  intros Hnew Halloc Hrun.
  apply (modifyTree_allocated (add_logic parentId new) s); auto.
  - apply add_logic_well_behaved.
  - intros p s0 p' Hs0 Hp. unfold add_logic, bind, alloc, ret.
    destruct (String.eqb (id p) parentId && NodeType_eqb (type p) folder);
      cbn; intros [= <-]; [|exact Hp].
    intros n Hn. rewrite nodes_children in Hn. destruct Hn as [<-|Hn]; [cbn; lia|].
    rewrite flat_map_app in Hn. apply in_app_or in Hn as [Hn|Hn].
    + apply in_flat_map in Hn as (c & Hc & Hn).
      assert (ref n < s0); [|lia]. apply Hp. exact (nodes_child p c n Hc Hn).
    + cbn in Hn. rewrite app_nil_r in Hn. specialize (Hnew n Hn). lia.
Qed.

(** X18. Delete undoes add.  In a tree with unique ids, after adding a
    node under a folder [d] (the generated id being new to the tree),
    deleting the generated id returns a tree with exactly the ids of the
    original, in the original order. *)
Theorem delete_undoes_add
    (t d : FileSystemNode) (now rnd nm : string) (ty : NodeType) (s : loc) :
  unique_ids t ->
  In d (nodes t) ->
  type d = folder ->
  allocated s t ->
  ~ In (new_node_id now rnd (id d)) (ids t) ->
  exists t1 s1 t2 s2,
    handleAddNode now rnd (id d) nm ty (Some t) s = (Some t1, s1) /\
    handleDeleteNode (new_node_id now rnd (id d)) (Some t1) s1 = (Some t2, s2) /\
    ids t2 = ids t /\
    node_count t1 = node_count t + 1 /\
    node_count t2 = node_count t.
Proof.
  intros Huniq Hd Hfolder Halloc Hfresh.
  set (new := new_node_data s now rnd (id d) nm ty).
  assert (Hnew : children_or_empty new = []) by (destruct ty; reflexivity).
  assert (Hnodes : nodes new = [new]) by (destruct ty; reflexivity).
  assert (HallocS : allocated (S s) t)
    by (eapply allocated_mono; [exact Halloc | lia]).
  destruct (add_below new t d (S s) Hnew Huniq Hd Hfolder HallocS)
    as (t1 & d' & s1 & E1 & Hd' & _ & Hcd & _ & Hcount & pre & post & Hpre & Hpost).
  assert (Huniq1 : unique_ids t1).
  { unfold unique_ids in *. rewrite Hpost. rewrite Hpre in Huniq, Hfresh.
    now apply NoDup_insert. }
  assert (Hal1 : allocated s1 t1).
  { pose proof (add_allocated new (id d) t (S s) t1) as H. rewrite E1 in H.
    apply H; auto. intros n Hn. rewrite Hnodes in Hn.
    destruct Hn as [<-|[]]. cbn. lia. }
  assert (Hroot1 : id t1 = id t).
  { apply (modifyTree_root_fields (add_logic (id d) new)) with (s := S s).
    - intros p s0 p'. unfold add_logic, bind, alloc, ret.
      destruct (String.eqb (id p) (id d) && NodeType_eqb (type p) folder);
        cbn; intros [= <-]; auto.
    - now rewrite E1. }
  assert (Hin1 : In new (nodes t1)).
  { apply (nodes_trans new d' t1); [|exact Hd'].
    eapply nodes_child; [|apply nodes_self].
    unfold children_or_empty. rewrite Hcd. apply in_or_app. right. now left. }
  assert (Hdesc : In new (descendants t1)).
  { rewrite nodes_cons in Hin1. destruct Hin1 as [E|H]; [|exact H].
    exfalso. apply Hfresh. change (new_node_id now rnd (id d)) with (id new).
    rewrite <- E, Hroot1. apply id_in_ids, nodes_self. }
  destruct (delete_below t1 new s1 Huniq1 Hdesc Hal1)
    as (t2 & s2 & E2 & _ & Hcount2 & Hids2 & _).
  exists t1, s1, t2, s2. split; [exact E1|]. split.
  { unfold handleDeleteNode.
    destruct (String.eqb_spec (new_node_id now rnd (id d)) "root") as [E|_].
    - exfalso. exact (new_node_id_is_not_root now rnd (id d) E).
    - exact E2. }
  split; [|split; [exact Hcount|]].
  - rewrite Hids2, Hpost, Hpre.
    assert (Hidn : ids new = [id new]) by (unfold ids; now rewrite Hnodes).
    assert (Hkeep : forall x, In x (pre ++ post) -> id_outside new x = true).
    { intros x Hx. apply id_outside_true. rewrite Hidn. intros [E|[]].
      apply Hfresh. rewrite Hpre. change (new_node_id now rnd (id d)) with (id new).
      now rewrite E. }
    rewrite filter_app. cbn [filter].
    replace (id_outside new (id new)) with false.
    + rewrite <- filter_app. now apply filter_keep_all.
    + symmetry. apply id_outside_false. rewrite Hidn. now left.
  - unfold node_count in *. rewrite Hnodes in Hcount2. cbn in Hcount2. lia.
Qed.

Lemma delete_undoes_add_witness :
  exists t1 s1 t2 s2,
    handleAddNode "1700000000000" "0.25" (id sample_b) "x.txt" file (Some sample_tree) 4
      = (Some t1, s1) /\
    handleDeleteNode (new_node_id "1700000000000" "0.25" (id sample_b)) (Some t1) s1
      = (Some t2, s2) /\
    ids t2 = ids sample_tree /\
    node_count t1 = node_count sample_tree + 1 /\
    node_count t2 = node_count sample_tree.
Proof.
  apply (delete_undoes_add sample_tree sample_b "1700000000000" "0.25" "x.txt" file 4).
  - exact sample_tree_unique_ids.
  - cbn. auto.
  - reflexivity.
  - exact sample_tree_allocated.
  - cbn. intros [H|[H|[H|[H|[]]]]]; discriminate H.
Defined.

(** ** Confirming an add *)

(** X19. Confirming an add in the editor.  When the editor of a folder
    is in adding mode (whether or not it is also renaming) and the input
    is not blank, confirming issues the add under that folder with the
    chosen kind and the input exactly as typed; in a tree with unique
    ids the folder's copy gets its old children followed by the new
    node, and the editor is closed. *)
Theorem confirm_add_appends_raw_input
    (t node : FileSystemNode) (ty : NodeType) (renaming : bool) (input : string)
    (now rnd : string) (s : loc) :
  unique_ids t ->
  In node (nodes t) ->
  type node = folder ->
  allocated s t ->
  trim input <> EmptyString ->
  handleConfirm node (mkEditor (Some ty) renaming input)
    = (Some (onAddNode (id node) input ty), editor_closed) /\
  exists t' node' new s',
    confirm_edit now rnd node (mkEditor (Some ty) renaming input) (Some t) s
      = (Some t', s') /\
    In node' (nodes t') /\ id node' = id node /\
    children node' = Some (children_or_empty node ++ [new]) /\
    name new = input /\ type new = ty /\
    node_count t' = node_count t + 1.
Proof.
  intros Huniq Hnode Hfolder Halloc Hinput.
  assert (Hc : handleConfirm node (mkEditor (Some ty) renaming input)
               = (Some (onAddNode (id node) input ty), editor_closed)).
  { unfold handleConfirm. cbn [inputValue isAdding].
    destruct (String.eqb_spec (trim input) EmptyString) as [E|_];
      [contradiction | reflexivity]. }
  split; [exact Hc|]. unfold confirm_edit. rewrite Hc. cbn [fst run_callback].
  set (new := new_node_data s now rnd (id node) input ty).
  assert (Hnew : children_or_empty new = []) by (destruct ty; reflexivity).
  destruct (add_below new t node (S s) Hnew Huniq Hnode Hfolder
              (allocated_mono _ _ _ Halloc (Nat.le_succ_diag_r s)))
    as (t' & d' & s' & E & Hd' & Hfd & Hcd & _ & Hcount & _).
  exists t', d', new, s'. split; [exact E|]. split; [exact Hd'|].
  split; [unfold fields in Hfd; now injection Hfd|].
  split; [exact Hcd|]. split; [reflexivity|]. split; [reflexivity | exact Hcount].
Qed.

Lemma confirm_add_appends_raw_input_witness :
  handleConfirm sample_b (mkEditor (Some file) true " x.txt")
    = (Some (onAddNode (id sample_b) " x.txt" file), editor_closed) /\
  exists t' node' new s',
    confirm_edit "1700000000000" "0.25" sample_b (mkEditor (Some file) true " x.txt")
                 (Some sample_tree) 4 = (Some t', s') /\
    In node' (nodes t') /\ id node' = id sample_b /\
    children node' = Some (children_or_empty sample_b ++ [new]) /\
    name new = " x.txt" /\ type new = file /\
    node_count t' = node_count sample_tree + 1.
Proof.
  apply (confirm_add_appends_raw_input sample_tree sample_b file true " x.txt"
           "1700000000000" "0.25" 4).
  - exact sample_tree_unique_ids.
  - cbn. auto.
  - reflexivity.
  - exact sample_tree_allocated.
  - vm_compute. discriminate.
Defined.
